(** * Forksort: the pipe-fed two-way merge and its driver (src/main.c)

    A shallow embedding of [main.c].  A process is a function of the
    bytes it can read; what it writes is collected in an [io] record, and
    [exit] ends the run with a status.  Library and system calls are taken
    at their documented behaviour:
    - [getline] returns the bytes up to and including the next line feed, or
      the rest of the stream when no line feed is left, and -1 at end of
      stream;
    - [strcmp] orders C strings by their unsigned bytes, the end of a
      string being smaller than every byte;
    - [pipe], [fork], [dup2], [fdopen], [execlp], [malloc] and [realloc]
      succeed;
    - a pipe holds [PIPE_CAPACITY] bytes: a process that writes more into a
      pipe that nobody reads is blocked.
    A line buffer is a C string; the embedding writes it as the [string] of
    its bytes before the terminating NUL.  [strcmp], [strlen], [printf],
    [fprintf] and [fputs] stop at the first NUL byte, so that [strcmp],
    [print] and [feed] below are these calls on buffers without a NUL byte
    only ([no_nul]); the properties that depend on it say so. *)

From Stdlib Require Import ZArith List String Ascii Lia Bool.
From Stdlib Require Import Sorting.Sorted Sorting.Permutation.
Open Scope string_scope.
Open Scope list_scope.
Import ListNotations.
Open Scope Z_scope.

(** ** Bytes and C strings *)

(** The line feed, ['\n']. *)
Definition nl : ascii := "010"%char.

(** The value of a byte as [unsigned char]. *)
Definition byte (c : ascii) : Z := Z.of_N (N_of_ascii c).

Definition EXIT_SUCCESS : Z := 0.
Definition EXIT_FAILURE : Z := 1.

(** [strcmp]: negative, zero or positive as the first string is below,
    equal to or above the second in the order of their unsigned bytes.
    (Of buffers without a NUL byte; C's [strcmp] stops at the first one.) *)
Definition strcmp (s1 s2 : string) : Z :=
  match String.compare s1 s2 with
  | Lt => -1
  | Eq => 0
  | Gt => 1
  end.

(** The last byte of a buffer, [line[strlen(line) - 1]]; none when the
    buffer is empty, where the index is -1. *)
Fixpoint last_byte (line : string) : option ascii :=
  match line with
  | EmptyString => None
  | String c EmptyString => Some c
  | String _ rest => last_byte rest
  end.

(** The buffer with its last byte overwritten by NUL. *)
Fixpoint drop_last (line : string) : string :=
  match line with
  | EmptyString => EmptyString
  | String _ EmptyString => EmptyString
  | String c rest => String c (drop_last rest)
  end.

(** ** Processes *)

(** What a process has written: the writes to standard output and those to
    the error stream, each in the order they were made. *)
Record io : Type := mkIO { stdout : list string; stderr : list string }.

Definition io0 : io := mkIO [] [].

(** How a computation ends: it returns a value, it calls [exit], it does
    something C leaves undefined, or it has not come to an end ([Fuel]):
    the embedding's fuel ran out first, or the process waits for ever. *)
Inductive outcome (A : Type) : Type :=
| Ret (a : A) (w : io)
| Exit (status : Z) (w : io)
| Undef
| Fuel.
Arguments Ret {A} a w.
Arguments Exit {A} status w.
Arguments Undef {A}.
Arguments Fuel {A}.

Definition M (A : Type) : Type := io -> outcome A.

Definition ret {A} (a : A) : M A := fun w => Ret a w.

Definition bind {A B} (m : M A) (k : A -> M B) : M B :=
  fun w =>
    match m w with
    | Ret a w' => k a w'
    | Exit s w' => Exit s w'
    | Undef => Undef
    | Fuel => Fuel
    end.

Notation "x <- m ;; k" := (bind m (fun x => k))
  (at level 61, m at next level, right associativity).
Notation "m ;;; k" := (bind m (fun _ => k))
  (at level 61, right associativity).

Definition exit {A} (status : Z) : M A := fun w => Exit status w.

Definition undefined {A} : M A := fun _ => Undef.

Definition put_out (s : string) : M unit :=
  fun w => Ret tt (mkIO (stdout w ++ [s]) (stderr w)).

Definition put_err (s : string) : M unit :=
  fun w => Ret tt (mkIO (stdout w) (stderr w ++ [s])).

(** [error_exit]: [fprintf(stderr, "%s\n", msg); exit(EXIT_FAILURE);] *)
Definition error_exit {A} (msg : string) : M A :=
  put_err (msg ++ String nl "")%string ;;; exit EXIT_FAILURE.

(** ** Streams *)

(** A stream open for reading is the bytes not yet read from it. *)
Definition FILE : Type := string.

(** The next line of a non-empty stream and the bytes after it. *)
Fixpoint take_line (stream : string) : string * string :=
  match stream with
  | EmptyString => (EmptyString, EmptyString)
  | String c rest =>
      if Ascii.eqb c nl then (String c EmptyString, rest)
      else let (l, r) := take_line rest in (String c l, r)
  end.

(** [getline]: [None] is the return value -1. *)
Definition getline (stream : FILE) : option (string * FILE) :=
  match stream with
  | EmptyString => None
  | _ => Some (take_line stream)
  end.

(** [readline]: the line read and the stream after it; exits when there is
    no line to read. *)
Definition readline (stream : FILE) : M (string * FILE) :=
  match getline stream with
  | None => error_exit "Could not read line"
  | Some lr => ret lr
  end.

(** [print]: strips the newline of [line] in place and writes the line
    followed by a newline.  The value is the buffer as [print] leaves it.
    On an empty buffer [line[len - 1]] is read outside of it.  (Of a buffer
    without a NUL byte; [strlen] and [printf] stop at the first one.) *)
Definition print (line : string) : M string :=
  match last_byte line with
  | None => undefined
  | Some c =>
      let line' := if Ascii.eqb c nl then drop_last line else line in
      put_out (line' ++ String nl "")%string ;;; ret line'
  end.

(** ** The merger *)

(** The local variables of [mergesort].  The counters and [lock] are
    [int]; the counters go up by one at a time from 0 and stay within the
    counts handed to [mergesort] (see [inv] below), so that no addition
    leaves the range of [int]. *)
Record locals : Type := mkLocals {
  file1 : FILE;
  file2 : FILE;
  left : string;
  right : string;
  lock : Z;
  processed_c1 : Z;
  processed_c2 : Z
}.

Definition set_left (v : string) (f : FILE) (st : locals) : locals :=
  mkLocals f (file2 st) v (right st) (lock st)
           (processed_c1 st) (processed_c2 st).

Definition set_right (v : string) (f : FILE) (st : locals) : locals :=
  mkLocals (file1 st) f (left st) v (lock st)
           (processed_c1 st) (processed_c2 st).

(** [print(left); *lock = l; *processed_c1 += 1;] *)
Definition emit_left (l : Z) (st : locals) : M locals :=
  left' <- print (left st) ;;
  ret (mkLocals (file1 st) (file2 st) left' (right st) l
                (processed_c1 st + 1) (processed_c2 st)).

(** [print(right); *lock = l; *processed_c2 += 1;] *)
Definition emit_right (l : Z) (st : locals) : M locals :=
  right' <- print (right st) ;;
  ret (mkLocals (file1 st) (file2 st) (left st) right' l
                (processed_c1 st) (processed_c2 st + 1)).

(** [cmp_lock(left, right, &lock, &processed_c1, &processed_c2)].  Where
    the source leaves [*lock] alone the embedding passes its value on. *)
Definition cmp_lock (st : locals) : M locals :=
  if lock st =? 0 then
    if strcmp (left st) (right st) <? 0 then emit_left 2 st
    else emit_right 1 st
  else if lock st =? 1 then
    if strcmp (left st) (right st) <? 0 then emit_left 2 st
    else emit_right (lock st) st
  else if lock st =? 2 then
    if strcmp (left st) (right st) <? 0 then emit_left (lock st) st
    else emit_right 1 st
  else error_exit "buffstate cannot be > 2".

(** [readline(&left, &len1, file1)] *)
Definition read_left (st : locals) : M locals :=
  lr <- readline (file1 st) ;; ret (set_left (fst lr) (snd lr) st).

(** [readline(&right, &len2, file2)] *)
Definition read_right (st : locals) : M locals :=
  lr <- readline (file2 st) ;; ret (set_right (fst lr) (snd lr) st).

(** The [switch (lock)] that opens the body of the merge loop. *)
Definition refill (st : locals) : M locals :=
  if lock st =? 0 then st1 <- read_left st ;; read_right st1
  else if lock st =? 1 then read_right st
  else if lock st =? 2 then read_left st
  else error_exit "lock cannot be > 2".

(** One iteration of the merge loop. *)
Definition loop_body (st : locals) : M locals :=
  st1 <- refill st ;; cmp_lock st1.

(** The loop condition,
    [processed_c1 != wr_count1 && processed_c2 != wr_count2]. *)
Definition loop_guard (wr_count1 wr_count2 : Z) (st : locals) : bool :=
  negb (processed_c1 st =? wr_count1) && negb (processed_c2 st =? wr_count2).

(** The merge loop, run for at most [fuel] iterations. *)
Fixpoint loop (fuel : nat) (wr_count1 wr_count2 : Z) (st : locals)
  : M locals :=
  if loop_guard wr_count1 wr_count2 st then
    match fuel with
    | O => fun _ => Fuel
    | S fuel' =>
        st' <- loop_body st ;; loop fuel' wr_count1 wr_count2 st'
    end
  else ret st.

(** The [switch (lock)] after the loop: the held line is written. *)
Definition flush_lock (st : locals) : M locals :=
  if lock st =? 1 then
    left' <- print (left st) ;;
    ret (mkLocals (file1 st) (file2 st) left' (right st) (lock st)
                  (processed_c1 st + 1) (processed_c2 st))
  else if lock st =? 2 then
    right' <- print (right st) ;;
    ret (mkLocals (file1 st) (file2 st) (left st) right' (lock st)
                  (processed_c1 st) (processed_c2 st + 1))
  else error_exit "lock cannot be 0 or > 2".

(** [for (...) { readline(&left, &len1, file1); print(left); }], [n] times. *)
Fixpoint drain_left (n : nat) (st : locals) : M locals :=
  match n with
  | O => ret st
  | S n' =>
      st1 <- read_left st ;;
      left' <- print (left st1) ;;
      drain_left n' (set_left left' (file1 st1) st1)
  end.

(** [for (...) { readline(&right, &len2, file2); print(right); }], [n] times. *)
Fixpoint drain_right (n : nat) (st : locals) : M locals :=
  match n with
  | O => ret st
  | S n' =>
      st1 <- read_right st ;;
      right' <- print (right st1) ;;
      drain_right n' (set_right right' (file2 st1) st1)
  end.

(** The lines still to come are read and written: [for (int i =
    processed_c1; i < wr_count1; i++)] runs [wr_count1 - processed_c1]
    times, and not at all when that is negative. *)
Definition drain (wr_count1 wr_count2 : Z) (st : locals) : M locals :=
  if negb (processed_c1 st =? wr_count1) then
    drain_left (Z.to_nat (wr_count1 - processed_c1 st)) st
  else if negb (processed_c2 st =? wr_count2) then
    drain_right (Z.to_nat (wr_count2 - processed_c2 st)) st
  else ret st.

(** The locals as [mergesort] initialises them; the two line buffers are
    NULL until the first read. *)
Definition init_locals (f1 f2 : FILE) : locals :=
  mkLocals f1 f2 EmptyString EmptyString 0 0 0.

(** The trivial case: both lists have one element. *)
Definition merge_trivial (f1 f2 : FILE) : M unit :=
  lr1 <- readline f1 ;;
  lr2 <- readline f2 ;;
  (if strcmp (fst lr1) (fst lr2) <? 0
   then print (fst lr1) ;;; print (fst lr2)
   else print (fst lr2) ;;; print (fst lr1)) ;;;
  exit EXIT_SUCCESS.

(** Every iteration of the loop reads a line, so it cannot run more often
    than the two streams have bytes. *)
Definition loop_fuel (f1 f2 : FILE) : nat :=
  S (String.length f1 + String.length f2).

(** The general case: the loop, the held line, the remaining lines. *)
Definition merge_general (f1 f2 : FILE) (wr_count1 wr_count2 : Z)
  : M locals :=
  st1 <- loop (loop_fuel f1 f2) wr_count1 wr_count2 (init_locals f1 f2) ;;
  st2 <- flush_lock st1 ;;
  drain wr_count1 wr_count2 st2.

(** [mergesort(fd1, fd2, wr_count1, wr_count2)], the two descriptors
    given as the streams behind them. *)
Definition mergesort (f1 f2 : FILE) (wr_count1 wr_count2 : Z) : M unit :=
  if (wr_count1 =? 1) && (wr_count2 =? 1) then merge_trivial f1 f2
  else merge_general f1 f2 wr_count1 wr_count2 ;;; ret tt.

(** ** The driver *)

Definition STEPSIZE : Z := 10.

(** A block of [char *] cells as [malloc] hands it out: its length is the
    number of cells allocated, its contents are indeterminate until they
    are stored. *)
Definition malloc_cells (n : Z) : list string :=
  repeat EmptyString (Z.to_nat n).

(** [realloc] to [n] cells: the cells already there are kept. *)
Definition realloc_cells (block : list string) (n : Z) : list string :=
  firstn (Z.to_nat n) block
  ++ repeat EmptyString (Z.to_nat n - List.length block).

Fixpoint set_nth (i : nat) (v : string) (block : list string) : list string :=
  match block, i with
  | [], _ => []
  | _ :: t, O => v :: t
  | h :: t, S i' => h :: set_nth i' v t
  end.

(** [block[i] = v]: a store outside of the block is undefined. *)
Definition store (block : list string) (i : Z) (v : string)
  : M (list string) :=
  if (0 <=? i) && (i <? Z.of_nat (List.length block))
  then ret (set_nth (Z.to_nat i) v block)
  else undefined.

(** The loop that reads standard input into [lines]; it yields [numlines]
    and the block.  ([max_buffer_size] is written here and read nowhere.) *)
Fixpoint read_lines (fuel : nat) (input : FILE) (numlines arrlen : Z)
         (lines : list string) : M (Z * list string) :=
  match getline input with
  | None => ret (numlines, lines)
  | Some (line, rest) =>
      match fuel with
      | O => fun _ => Fuel
      | S fuel' =>
          lines1 <- store lines numlines line ;;
          if numlines =? arrlen then
            read_lines fuel' rest (numlines + 1) (arrlen + STEPSIZE)
                       (realloc_cells lines1 (arrlen + STEPSIZE))
          else
            read_lines fuel' rest (numlines + 1) arrlen lines1
      end
  end.

(** Each round of [read_lines] reads at least one byte. *)
Definition ingest (input : FILE) : M (Z * list string) :=
  read_lines (String.length input) input 0 STEPSIZE (malloc_cells STEPSIZE).

(** The cells [lines[lo]], ..., [lines[hi - 1]], as [for (int i = lo; i <
    hi; i++)] visits them. *)
Definition cells_between (lo hi : Z) (lines : list string) : list string :=
  firstn (Z.to_nat (hi - lo)) (skipn (Z.to_nat lo) lines).

(** What the parent hands to its children: the lines written into the
    first pipe, their number, the lines written into the second pipe and
    their number. *)
Definition split (numlines : Z) (lines : list string)
  : (list string * Z) * (list string * Z) :=
  let half1 := cells_between 0 (Z.quot numlines 2) lines in
  let wr_count1 := Z.of_nat (List.length half1) in
  let half2 := cells_between wr_count1 numlines lines in
  ((half1, wr_count1), (half2, Z.of_nat (List.length half2))).

(** The bytes that [fputs] of each line in turn puts into a pipe.  (Of
    lines without a NUL byte; [fputs] stops at the first one.) *)
Definition feed (ls : list string) : string := String.concat "" ls.

(** [fork] and [execlp]: the child runs the program on the bytes fed to it,
    with a pipe of its own as standard output, alongside the parent.  How
    it ends is there for the parent to wait for. *)
Definition fork (prog : M Empty_set) : outcome Empty_set := prog io0.

(** The number of bytes a pipe holds before a write into it blocks: 65536
    on Linux, and the source does nothing to change it. *)
Definition PIPE_CAPACITY : Z := 65536.

(** [waitpid]: the parent blocks until the child has ended; it learns the
    exit status and can read from the pipe what the child wrote.  The
    parent reads nothing from the pipe before it has waited for both
    children, so that a child with more to write than the pipe holds is
    blocked in its write and does not end, and neither does the parent.
    What the child wrote to the error stream, which it shares with the
    parent, is put before what the parent writes from here on. *)
Definition wait (child : outcome Empty_set) : M (Z * FILE) :=
  fun w =>
    match child with
    | Ret a _ => match a with end
    | Exit status wc =>
        if Z.of_nat (String.length (feed (stdout wc))) <=? PIPE_CAPACITY
        then Ret (status, feed (stdout wc))
                 (mkIO (stdout w) (stderr w ++ stderr wc))
        else Fuel
    | Undef => Undef
    | Fuel => Fuel
    end.

(** [main] with no arguments, on the bytes of its standard input.  [fuel]
    bounds the depth of the tree of processes. *)
Fixpoint main (fuel : nat) (input : FILE) : M Empty_set :=
  match fuel with
  | O => fun _ => Fuel
  | S fuel' =>
      nl_lines <- ingest input ;;
      let numlines := fst nl_lines in
      let lines := snd nl_lines in
      if numlines =? 1 then
        put_out (nth 0 lines EmptyString) ;;; exit EXIT_SUCCESS
      else
        let halves := split numlines lines in
        let wr_count1 := snd (fst halves) in
        let wr_count2 := snd (snd halves) in
        let pid1 := fork (main fuel' (feed (fst (fst halves)))) in
        let pid2 := fork (main fuel' (feed (fst (snd halves)))) in
        child1 <- wait pid1 ;;
        (if negb (fst child1 =? EXIT_SUCCESS)
         then error_exit "Error occured during waiting for child: pid1"
         else ret tt) ;;;
        child2 <- wait pid2 ;;
        (if negb (fst child2 =? EXIT_SUCCESS)
         then error_exit "Error occured during waiting for child: pid2"
         else ret tt) ;;;
        mergesort (snd child1) (snd child2) wr_count1 wr_count2 ;;;
        exit EXIT_SUCCESS
  end.

(** A text of terminated lines. *)
Fixpoint text (ls : list string) : string :=
  match ls with
  | [] => EmptyString
  | l :: ls' => (l ++ String nl (text ls'))%string
  end.

(** ** The lines of a stream *)

(** All the lines of a stream, as reading it to its end yields them. *)
Fixpoint lines_of (stream : string) : list string :=
  match stream with
  | EmptyString => []
  | String c rest =>
      if Ascii.eqb c nl then String c EmptyString :: lines_of rest
      else match lines_of rest with
           | [] => [String c EmptyString]
           | l :: ls => String c l :: ls
           end
  end.

(** A line without its newline, if it has one. *)
Definition content (line : string) : string :=
  match last_byte line with
  | Some c => if Ascii.eqb c nl then drop_last line else line
  | None => line
  end.

(** What [print] writes for a line. *)
Definition printed (line : string) : string :=
  (content line ++ String nl "")%string.

(** No byte of the stream is below the line feed. *)
Fixpoint low_free (s : string) : Prop :=
  match s with
  | EmptyString => True
  | String c rest => 10 <= byte c /\ low_free rest
  end.

(** The order of [strcmp] on line contents. *)
Definition line_le (a b : string) : Prop := strcmp a b <= 0.

(** The order of [strcmp] on lines as they are read. *)
Definition raw_le (a b : string) : Prop := strcmp a b <= 0.

(** A run that came to its end without an error: [mergesort] returns, or
    exits with [EXIT_SUCCESS] from its trivial case. *)
Definition ends_well (o : outcome unit) (w : io) : Prop :=
  o = Ret tt w \/ o = Exit EXIT_SUCCESS w.

(** A line content with its terminator. *)
Definition terminated (l : string) : string := (l ++ String nl "")%string.

(** The lines of a stream without their terminators. *)
Definition contents (f : FILE) : list string := map content (lines_of f).

(** Every byte of the string is above the line feed. *)
Fixpoint above_nl (s : string) : Prop :=
  match s with
  | EmptyString => True
  | String c rest => 10 < byte c /\ above_nl rest
  end.

(** [mergesort] comes to its end without an error and has written, each
    with its terminator, the lines of the two streams in non-decreasing
    order. *)
Definition merge_sorts (f1 f2 : FILE) (c1 c2 : Z) (w : io) : Prop :=
  exists out w',
    ends_well (mergesort f1 f2 c1 c2 w) w' /\
    stdout w' = stdout w ++ map terminated out /\ stderr w' = stderr w /\
    Permutation out (contents f1 ++ contents f2) /\
    Sorted line_le out.

(** After [n] rounds of the merge loop begun in the first state the
    process is in the second. *)
Inductive loop_runs (wr_count1 wr_count2 : Z)
  : nat -> locals -> io -> locals -> io -> Prop :=
| runs_O st w : loop_runs wr_count1 wr_count2 O st w st w
| runs_S n st w st1 w1 st' w' :
    loop_guard wr_count1 wr_count2 st = true ->
    loop_body st w = Ret st1 w1 ->
    loop_runs wr_count1 wr_count2 n st1 w1 st' w' ->
    loop_runs wr_count1 wr_count2 (S n) st w st' w'.

(** ** The shape of lines *)

(** No byte of the string is NUL. *)
Fixpoint no_nul (s : string) : Prop :=
  match s with
  | EmptyString => True
  | String c rest => c <> Ascii.zero /\ no_nul rest
  end.

(** The number of bytes of lines of the given contents, each followed by
    its line feed. *)
Fixpoint bytes_of (cs : list string) : nat :=
  match cs with
  | [] => O
  | c :: rest => (S (String.length c) + bytes_of rest)%nat
  end.

(** No byte of the string is the line feed. *)
Fixpoint nl_free (s : string) : Prop :=
  match s with
  | EmptyString => True
  | String c rest => c <> nl /\ nl_free rest
  end.

(** A line with its terminator, and a last line without one. *)
Definition terminated_line (l : string) : Prop :=
  exists c, nl_free c /\ l = terminated c.

Definition open_line (l : string) : Prop := nl_free l /\ l <> EmptyString.

(** The lines of a stream, as [getline] cuts them: every line has its
    terminator, but for the last one, which may lack it. *)
Fixpoint line_seq (ls : list string) : Prop :=
  match ls with
  | [] => True
  | l :: rest =>
      match rest with
      | [] => terminated_line l \/ open_line l
      | _ :: _ => terminated_line l /\ line_seq rest
      end
  end.

(** [usage]: [fprintf(stderr, "USAGE: %s\n", pgm_name);
    exit(EXIT_FAILURE);] *)
Definition usage {A} (pgm_name : string) : M A :=
  put_err ("USAGE: " ++ pgm_name ++ String nl "")%string ;;;
  exit EXIT_FAILURE.

(** The program as it is started: [argv[0]] is kept as the program's name,
    and any argument is answered with [usage] before a byte is read. *)
Definition program (argc : Z) (pgm_name : string) (fuel : nat) (input : FILE)
  : M Empty_set :=
  if negb (argc =? 1) then usage pgm_name else main fuel input.


(** ** What the proofs speak of *)

Definition diagnostic : string :=
  ("Could not read line" ++ String nl "")%string.

(** The error stream with one more message. *)
Definition with_err (w : io) (msg : string) : io :=
  mkIO (stdout w) (stderr w ++ [msg]).

(** Standard output with one more line. *)
Definition with_out (w : io) (line : string) : io :=
  mkIO (stdout w ++ [line]) (stderr w).

(** The bytes still to be read from the two streams. *)
Definition size (st : locals) : nat :=
  (String.length (file1 st) + String.length (file2 st))%nat.

(** A line is its content, followed by a line feed or not. *)
Definition tail (t : string) : Prop := t = EmptyString \/ t = String nl "".

(** The lemmas of the loop that do not depend on an order are used with
    the order that holds between any two lines. *)
Definition any_order (_ _ : string) : Prop := True.
Definition any_line (_ : string) : Prop := True.

Section Invariant.

(** The order in which the lines are to come out, the two streams as
    [mergesort] is handed them, their counts, and what the process had
    written before. *)
Variable le : string -> string -> Prop.
Variables f1 f2 : FILE.
Variables c1 c2 : Z.
Variable w0 : io.

(** The line [x] of side a is held back: the lines [A] before it and the
    lines [B] of side b are written, in the order [E]. *)
Definition held (La Lb : list string) (x : string) (ra rb : FILE)
           (pa pb : Z) (E : list string) : Prop :=
  exists A B,
    La = A ++ x :: lines_of ra /\ Lb = B ++ lines_of rb /\
    pa = Z.of_nat (List.length A) /\ pb = Z.of_nat (List.length B) /\
    Permutation E (A ++ B) /\
    StronglySorted le (E ++ x :: lines_of ra) /\
    StronglySorted le (E ++ lines_of rb).

(** What holds between two rounds of the loop, [E] being the lines
    written so far. *)
Definition inv (E : list string) (st : locals) (w : io) : Prop :=
  stdout w = stdout w0 ++ map printed E /\ stderr w = stderr w0 /\
  0 <= processed_c1 st <= c1 /\ 0 <= processed_c2 st <= c2 /\
  ((lock st = 0 /\ E = [] /\ processed_c1 st = 0 /\ processed_c2 st = 0 /\
    file1 st = f1 /\ file2 st = f2)
   \/ (lock st = 1 /\ processed_c1 st < c1 /\
       held (lines_of f1) (lines_of f2) (left st) (file1 st) (file2 st)
            (processed_c1 st) (processed_c2 st) E)
   \/ (lock st = 2 /\ processed_c2 st < c2 /\
       held (lines_of f2) (lines_of f1) (right st) (file2 st) (file1 st)
            (processed_c2 st) (processed_c1 st) E)).

(** A read found its stream at its end: the diagnostic is written and
    nothing else. *)
Definition read_failed (E : list string) (w : io) : Prop :=
  stdout w = stdout w0 ++ map printed E /\
  stderr w = stderr w0 ++ [diagnostic].

(** A stream has fewer lines than were promised. *)
Definition short : Prop :=
  Z.of_nat (List.length (lines_of f1)) < c1 \/
  Z.of_nat (List.length (lines_of f2)) < c2.

(** Both streams have the lines promised and no more. *)
Definition exact : Prop :=
  Z.of_nat (List.length (lines_of f1)) = c1 /\
  Z.of_nat (List.length (lines_of f2)) = c2.

End Invariant.

(** The invariant of the loop where no order is asked for. *)
Definition inv0 (f1 f2 : FILE) (c1 c2 : Z) (w0 : io)
  : list string -> locals -> io -> Prop :=
  inv any_order f1 f2 c1 c2 w0.

(** * Properties *)

(** ** Strings *)

Lemma ascii_compare_refl c : Ascii.compare c c = Eq.
Proof. unfold Ascii.compare. apply N.compare_refl. Qed.

Lemma string_compare_refl s : String.compare s s = Eq.
Proof.
  induction s as [|c s IH]; simpl; [reflexivity|].
  now rewrite ascii_compare_refl.
Qed.

Lemma ascii_compare_trans_lt a b c :
  Ascii.compare a b = Lt -> Ascii.compare b c = Lt -> Ascii.compare a c = Lt.
Proof.
  unfold Ascii.compare. rewrite !N.compare_lt_iff. apply N.lt_trans.
Qed.

Lemma string_compare_trans_lt s1 : forall s2 s3,
  String.compare s1 s2 = Lt -> String.compare s2 s3 = Lt ->
  String.compare s1 s3 = Lt.
Proof.
  induction s1 as [|a s1 IH]; intros [|b s2] [|c s3]; simpl; try congruence.
  destruct (Ascii.compare a b) eqn:Hab; try congruence;
    destruct (Ascii.compare b c) eqn:Hbc; try congruence.
  - apply Ascii.compare_eq_iff in Hab, Hbc. subst.
    rewrite ascii_compare_refl. apply IH.
  - apply Ascii.compare_eq_iff in Hab. subst. now rewrite Hbc.
  - apply Ascii.compare_eq_iff in Hbc. subst. now rewrite Hab.
  - now rewrite (ascii_compare_trans_lt _ _ _ Hab Hbc).
Qed.

Lemma strcmp_le_iff a b : strcmp a b <= 0 <-> String.compare a b <> Gt.
Proof.
  unfold strcmp. destruct (String.compare a b); split; intros; try lia;
    congruence.
Qed.

Lemma strcmp_lt_iff a b : strcmp a b < 0 <-> String.compare a b = Lt.
Proof.
  unfold strcmp. destruct (String.compare a b); split; intros; try lia;
    congruence.
Qed.

Lemma strcmp_lt_le a b : strcmp a b < 0 -> strcmp a b <= 0.
Proof. lia. Qed.

Lemma strcmp_ge_le a b : ~ strcmp a b < 0 -> strcmp b a <= 0.
Proof.
  rewrite strcmp_lt_iff, strcmp_le_iff, (String.compare_antisym a b).
  destruct (String.compare b a); simpl; congruence.
Qed.

Lemma strcmp_le_trans a b c :
  strcmp a b <= 0 -> strcmp b c <= 0 -> strcmp a c <= 0.
Proof.
  rewrite !strcmp_le_iff. intros Hab Hbc.
  destruct (String.compare a b) eqn:E1; [| |congruence].
  - apply String.compare_eq_iff in E1. now subst.
  - destruct (String.compare b c) eqn:E2; [| |congruence].
    + apply String.compare_eq_iff in E2. subst. now rewrite E1.
    + now rewrite (string_compare_trans_lt _ _ _ E1 E2).
Qed.

(** ** Reading lines *)

Lemma take_line_lines s c :
  lines_of (String c s) =
  fst (take_line (String c s)) :: lines_of (snd (take_line (String c s))).
Proof.
  revert c. induction s as [|d s IH]; intro c.
  - simpl. destruct (Ascii.eqb c nl); reflexivity.
  - change (lines_of (String c (String d s)))
      with (if Ascii.eqb c nl then String c EmptyString :: lines_of (String d s)
            else match lines_of (String d s) with
                 | [] => [String c EmptyString]
                 | l :: ls => String c l :: ls
                 end).
    change (take_line (String c (String d s)))
      with (if Ascii.eqb c nl then (String c EmptyString, String d s)
            else let (l, r) := take_line (String d s) in (String c l, r)).
    destruct (Ascii.eqb c nl); [reflexivity|].
    rewrite (IH d). destruct (take_line (String d s)); reflexivity.
Qed.

Lemma getline_some f l r :
  getline f = Some (l, r) -> lines_of f = l :: lines_of r.
Proof.
  destruct f as [|c s]; [discriminate|].
  change (getline (String c s)) with (Some (take_line (String c s))).
  intro H. assert (H' : take_line (String c s) = (l, r)) by congruence.
  rewrite take_line_lines, H'. reflexivity.
Qed.

Lemma getline_none f : getline f = None -> lines_of f = [].
Proof. destruct f; simpl; [reflexivity|discriminate]. Qed.

Lemma lines_of_nil f : lines_of f = [] -> getline f = None.
Proof.
  destruct f as [|c s]; [reflexivity|].
  rewrite take_line_lines. discriminate.
Qed.

Lemma lines_of_cons f l ls :
  lines_of f = l :: ls ->
  exists r, getline f = Some (l, r) /\ lines_of r = ls.
Proof.
  destruct f as [|c s]; [discriminate|].
  rewrite take_line_lines.
  change (getline (String c s)) with (Some (take_line (String c s))).
  destruct (take_line (String c s)) as [l' r']. simpl.
  intro H. injection H as -> <-. now exists r'.
Qed.

Lemma take_line_length s :
  (String.length (snd (take_line s)) <= String.length s)%nat.
Proof.
  induction s as [|c s IH]; simpl; [lia|].
  destruct (Ascii.eqb c nl); simpl; [lia|].
  destruct (take_line s); simpl in *. lia.
Qed.

Lemma getline_shorter f l r :
  getline f = Some (l, r) -> (String.length r < String.length f)%nat.
Proof.
  destruct f as [|c s]; simpl; [discriminate|].
  destruct (Ascii.eqb c nl).
  - intro H. injection H as _ H. subst. lia.
  - pose proof (take_line_length s) as Hl.
    destruct (take_line s). intro H. injection H as _ H. subst.
    simpl in Hl. lia.
Qed.

Lemma take_line_last s c :
  last_byte (fst (take_line (String c s))) <> None.
Proof.
  revert c. induction s as [|d s IH]; intro c.
  - simpl. destruct (Ascii.eqb c nl); simpl; discriminate.
  - change (take_line (String c (String d s)))
      with (if Ascii.eqb c nl then (String c EmptyString, String d s)
            else let (l, r) := take_line (String d s) in (String c l, r)).
    destruct (Ascii.eqb c nl); [simpl; discriminate|].
    specialize (IH d). destruct (take_line (String d s)) as [l r].
    simpl in *. destruct l; [discriminate|exact IH].
Qed.

(** [getline] never yields an empty buffer. *)
Lemma getline_last f l r : getline f = Some (l, r) -> last_byte l <> None.
Proof.
  destruct f as [|c s]; [discriminate|].
  change (getline (String c s)) with (Some (take_line (String c s))).
  intro H. assert (H' : take_line (String c s) = (l, r)) by congruence.
  pose proof (take_line_last s c) as Hl. now rewrite H' in Hl.
Qed.

Lemma lines_of_last f : Forall (fun l => last_byte l <> None) (lines_of f).
Proof.
  remember (String.length f) as n eqn:Hn.
  revert f Hn. induction n as [n IH] using lt_wf_ind. intros f Hn.
  destruct (lines_of f) as [|l ls] eqn:E; [constructor|].
  destruct (lines_of_cons _ _ _ E) as (r & Hg & Hr).
  constructor.
  - eapply getline_last; eauto.
  - rewrite <- Hr. apply (IH (String.length r)); [|reflexivity].
    subst n. eapply getline_shorter; eauto.
Qed.

(** ** [readline] and [print] *)

Lemma readline_some f l r w :
  getline f = Some (l, r) -> readline f w = Ret (l, r) w.
Proof. unfold readline. now intros ->. Qed.

Lemma readline_none f w :
  getline f = None ->
  readline f w =
  Exit EXIT_FAILURE
       (mkIO (stdout w)
             (stderr w ++ [("Could not read line" ++ String nl "")%string])).
Proof. unfold readline. now intros ->. Qed.

Lemma print_ok line w :
  last_byte line <> None ->
  print line w =
  Ret (content line) (mkIO (stdout w ++ [printed line]) (stderr w)).
Proof.
  unfold print, printed, content. destruct (last_byte line) as [c|];
    [|congruence].
  intros _. reflexivity.
Qed.

(** ** Running the pieces *)

Lemma bind_ret {A B} (m : M A) (k : A -> M B) w a w' :
  m w = Ret a w' -> bind m k w = k a w'.
Proof. unfold bind. now intros ->. Qed.

Lemma bind_ret_eq {A B} (m : M A) (k : A -> M B) w a w' r :
  m w = Ret a w' -> k a w' = r -> bind m k w = r.
Proof. unfold bind. now intros -> ->. Qed.

Lemma bind_exit {A B} (m : M A) (k : A -> M B) w s w' :
  m w = Exit s w' -> bind m k w = Exit s w'.
Proof. unfold bind. now intros ->. Qed.

Lemma read_left_some st w l r :
  getline (file1 st) = Some (l, r) ->
  read_left st w = Ret (set_left l r st) w.
Proof.
  intro H. unfold read_left.
  now rewrite (bind_ret _ _ _ _ _ (readline_some _ _ _ w H)).
Qed.

Lemma read_left_none st w :
  getline (file1 st) = None ->
  read_left st w = Exit EXIT_FAILURE (with_err w diagnostic).
Proof.
  intro H. unfold read_left.
  now rewrite (bind_exit _ _ _ _ _ (readline_none _ w H)).
Qed.

Lemma read_right_some st w l r :
  getline (file2 st) = Some (l, r) ->
  read_right st w = Ret (set_right l r st) w.
Proof.
  intro H. unfold read_right.
  now rewrite (bind_ret _ _ _ _ _ (readline_some _ _ _ w H)).
Qed.

Lemma read_right_none st w :
  getline (file2 st) = None ->
  read_right st w = Exit EXIT_FAILURE (with_err w diagnostic).
Proof.
  intro H. unfold read_right.
  now rewrite (bind_exit _ _ _ _ _ (readline_none _ w H)).
Qed.

Lemma emit_left_ok l st w :
  last_byte (left st) <> None ->
  emit_left l st w =
  Ret (mkLocals (file1 st) (file2 st) (content (left st)) (right st) l
                (processed_c1 st + 1) (processed_c2 st))
      (with_out w (printed (left st))).
Proof.
  intro H. unfold emit_left. now rewrite (bind_ret _ _ _ _ _ (print_ok _ w H)).
Qed.

Lemma emit_right_ok l st w :
  last_byte (right st) <> None ->
  emit_right l st w =
  Ret (mkLocals (file1 st) (file2 st) (left st) (content (right st)) l
                (processed_c1 st) (processed_c2 st + 1))
      (with_out w (printed (right st))).
Proof.
  intro H. unfold emit_right. now rewrite (bind_ret _ _ _ _ _ (print_ok _ w H)).
Qed.

(** Whatever is held, [cmp_lock] writes the left line and holds the right
    one when the left line is the smaller, ... *)
Lemma cmp_lock_lt st :
  lock st = 0 \/ lock st = 1 \/ lock st = 2 ->
  strcmp (left st) (right st) < 0 -> cmp_lock st = emit_left 2 st.
Proof.
  intros Hl Hc. unfold cmp_lock. apply Z.ltb_lt in Hc. rewrite Hc.
  destruct Hl as [->|[->|Hl]]; try reflexivity. now rewrite Hl.
Qed.

(** ... and writes the right line and holds the left one when it is not. *)
Lemma cmp_lock_ge st :
  lock st = 0 \/ lock st = 1 \/ lock st = 2 ->
  ~ strcmp (left st) (right st) < 0 -> cmp_lock st = emit_right 1 st.
Proof.
  intros Hl Hc. unfold cmp_lock. apply Z.ltb_nlt in Hc. rewrite Hc.
  destruct Hl as [->|[->|Hl]]; try reflexivity. now rewrite Hl.
Qed.

Lemma flush_lock_left st w :
  lock st = 1 -> last_byte (left st) <> None ->
  flush_lock st w =
  Ret (mkLocals (file1 st) (file2 st) (content (left st)) (right st) (lock st)
                (processed_c1 st + 1) (processed_c2 st))
      (with_out w (printed (left st))).
Proof.
  intros Hl H. unfold flush_lock.
  destruct (Z.eqb_spec (lock st) 1); [|congruence].
  now rewrite (bind_ret _ _ _ _ _ (print_ok _ w H)).
Qed.

Lemma flush_lock_right st w :
  lock st = 2 -> last_byte (right st) <> None ->
  flush_lock st w =
  Ret (mkLocals (file1 st) (file2 st) (left st) (content (right st)) (lock st)
                (processed_c1 st) (processed_c2 st + 1))
      (with_out w (printed (right st))).
Proof.
  intros Hl H. unfold flush_lock.
  destruct (Z.eqb_spec (lock st) 1); [lia|].
  destruct (Z.eqb_spec (lock st) 2); [|congruence].
  now rewrite (bind_ret _ _ _ _ _ (print_ok _ w H)).
Qed.

(** Draining [n] lines of a stream that has them writes them in their
    order. *)
Lemma drain_left_ok n : forall st w,
  (n <= List.length (lines_of (file1 st)))%nat ->
  exists st',
    drain_left n st w =
    Ret st' (mkIO (stdout w ++ map printed (firstn n (lines_of (file1 st))))
                  (stderr w)).
Proof.
  induction n as [|n IH]; intros st w Hn.
  - exists st. simpl. rewrite app_nil_r. now destruct w.
  - destruct (lines_of (file1 st)) as [|l ls] eqn:E; [simpl in Hn; lia|].
    destruct (lines_of_cons _ _ _ E) as (r & Hg & Hr).
    cbn [drain_left]. rewrite (bind_ret _ _ _ _ _ (read_left_some _ w _ _ Hg)).
    rewrite (bind_ret _ _ _ _ _
               (print_ok (left (set_left l r st)) w (getline_last _ _ _ Hg))).
    destruct (IH (set_left (content l) r (set_left l r st))
                 (with_out w (printed l))) as (st' & Hd).
    { cbn. rewrite Hr. simpl in Hn. lia. }
    exists st'. refine (eq_trans Hd _). cbn [stdout stderr with_out file1 set_left].
    rewrite Hr, <- app_assoc. reflexivity.
Qed.


Lemma drain_right_ok n : forall st w,
  (n <= List.length (lines_of (file2 st)))%nat ->
  exists st',
    drain_right n st w =
    Ret st' (mkIO (stdout w ++ map printed (firstn n (lines_of (file2 st))))
                  (stderr w)).
Proof.
  induction n as [|n IH]; intros st w Hn.
  - exists st. simpl. rewrite app_nil_r. now destruct w.
  - destruct (lines_of (file2 st)) as [|l ls] eqn:E; [simpl in Hn; lia|].
    destruct (lines_of_cons _ _ _ E) as (r & Hg & Hr).
    cbn [drain_right].
    rewrite (bind_ret _ _ _ _ _ (read_right_some _ w _ _ Hg)).
    rewrite (bind_ret _ _ _ _ _
               (print_ok (right (set_right l r st)) w (getline_last _ _ _ Hg))).
    destruct (IH (set_right (content l) r (set_right l r st))
                 (with_out w (printed l))) as (st' & Hd).
    { cbn. rewrite Hr. simpl in Hn. lia. }
    exists st'. refine (eq_trans Hd _). cbn [stdout stderr with_out file2 set_right].
    rewrite Hr, <- app_assoc. reflexivity.
Qed.


(** ** The merge loop *)

Lemma StronglySorted_app_iff {A} (R : A -> A -> Prop) (l1 l2 : list A) :
  StronglySorted R (l1 ++ l2) <->
  StronglySorted R l1 /\ StronglySorted R l2 /\
  (forall a b, In a l1 -> In b l2 -> R a b).
Proof.
  induction l1 as [|x l1 IH]; simpl.
  - split; [intro H; repeat split; [constructor|assumption|tauto]|tauto].
  - split.
    + intro H. apply StronglySorted_inv in H. destruct H as [H Hx].
      apply IH in H. destruct H as (H1 & H2 & H12).
      rewrite Forall_app in Hx. destruct Hx as [Hx1 Hx2].
      repeat split; [now constructor|assumption|].
      intros a b [<-|Ha] Hb; [|now apply H12].
      rewrite Forall_forall in Hx2. now apply Hx2.
    + intros (H1 & H2 & H12). apply StronglySorted_inv in H1.
      destruct H1 as [H1 Hx]. constructor.
      * apply IH. repeat split; [assumption..|]. intros; apply H12; auto.
      * rewrite Forall_app. split; [assumption|].
        rewrite Forall_forall. intros b Hb. apply H12; auto.
Qed.

Section Merge.

(** The order in which the lines are to come out and the lines of which
    [strcmp] decides it. *)
Variable le : string -> string -> Prop.
Variable P : string -> Prop.
Hypothesis le_trans : forall a b c, le a b -> le b c -> le a c.
Hypothesis cmp_lt : forall a b, P a -> P b -> strcmp a b < 0 -> le a b.
Hypothesis cmp_ge : forall a b, P a -> P b -> ~ strcmp a b < 0 -> le b a.

Variables f1 f2 : FILE.
Variables c1 c2 : Z.
Variable w0 : io.
Hypothesis HP1 : Forall P (lines_of f1).
Hypothesis HP2 : Forall P (lines_of f2).
Hypothesis Hs1 : StronglySorted le (lines_of f1).
Hypothesis Hs2 : StronglySorted le (lines_of f2).
Hypothesis Hc1 : 1 <= c1.
Hypothesis Hc2 : 1 <= c2.

Local Abbreviation held := (held le).
Local Abbreviation inv := (inv le f1 f2 c1 c2 w0).
Local Abbreviation read_failed := (read_failed w0).
Local Abbreviation short := (short f1 f2 c1 c2).
Local Abbreviation exact := (exact f1 f2 c1 c2).

Lemma held_P La Lb x ra rb pa pb E :
  Forall P La -> held La Lb x ra rb pa pb E -> P x.
Proof.
  intros HP (A & B & -> & _). rewrite Forall_app in HP.
  destruct HP as [_ HP]. now inversion HP.
Qed.

Lemma held_next_P La Lb x ra rb pa pb E y rb' :
  Forall P Lb -> held La Lb x ra rb pa pb E ->
  getline rb = Some (y, rb') -> P y.
Proof.
  intros HP (A & B & _ & -> & _) Hg. rewrite (getline_some _ _ _ Hg) in HP.
  rewrite Forall_app in HP. destruct HP as [_ HP]. now inversion HP.
Qed.

Lemma held_last fa La Lb x ra rb pa pb E :
  La = lines_of fa -> held La Lb x ra rb pa pb E -> last_byte x <> None.
Proof.
  intros -> (A & B & HL & _). pose proof (lines_of_last fa) as H.
  rewrite HL, Forall_app in H. destruct H as [_ H]. now inversion H.
Qed.

Lemma held_short La Lb x ra rb pa pb E :
  held La Lb x ra rb pa pb E -> getline rb = None ->
  Z.of_nat (List.length Lb) = pb.
Proof.
  intros (A & B & _ & -> & _ & -> & _) Hg.
  rewrite (getline_none _ Hg), app_nil_r. reflexivity.
Qed.

(** The held line is written and the line read takes its place. *)
Lemma held_swap La Lb x ra rb pa pb E y rb' :
  held La Lb x ra rb pa pb E -> getline rb = Some (y, rb') -> le x y ->
  held Lb La y rb' ra pb (pa + 1) (E ++ [x]).
Proof.
  intros (A & B & HA & HB & Hpa & Hpb & HE & S1 & S2) Hg Hxy.
  rewrite (getline_some _ _ _ Hg) in HB, S2.
  exists B, (A ++ [x]). repeat split.
  - assumption.
  - rewrite <- app_assoc. assumption.
  - assumption.
  - rewrite length_app. simpl. lia.
  - rewrite app_assoc. rewrite (Permutation_app_comm B).
    apply Permutation_app_tail. assumption.
  - rewrite StronglySorted_app_iff in S1, S2 |- *.
    destruct S1 as (SE & Sx & HEx), S2 as (_ & Sy & HEy).
    apply StronglySorted_inv in Sy. destruct Sy as [Sy Hy].
    rewrite Forall_forall in Hy.
    repeat split.
    + apply StronglySorted_app_iff. repeat split;
        [assumption|repeat constructor|].
      intros a b Ha [<-|[]]. apply HEx; simpl; auto.
    + constructor; [assumption|now apply Forall_forall].
    + intros a b Ha Hb. apply in_app_or in Ha.
      destruct Ha as [Ha|[<-|[]]]; [now apply HEy|].
      destruct Hb as [<-|Hb]; [assumption|].
      eapply le_trans; [exact Hxy|now apply Hy].
  - rewrite <- app_assoc. assumption.
Qed.

(** The line read is written and the held line stays. *)
Lemma held_keep La Lb x ra rb pa pb E y rb' :
  held La Lb x ra rb pa pb E -> getline rb = Some (y, rb') -> le y x ->
  held La Lb x ra rb' pa (pb + 1) (E ++ [y]).
Proof.
  intros (A & B & HA & HB & Hpa & Hpb & HE & S1 & S2) Hg Hyx.
  rewrite (getline_some _ _ _ Hg) in HB, S2.
  exists A, (B ++ [y]). repeat split.
  - assumption.
  - rewrite <- app_assoc. assumption.
  - assumption.
  - rewrite length_app. simpl. lia.
  - rewrite app_assoc. apply Permutation_app_tail. assumption.
  - rewrite StronglySorted_app_iff in S1, S2 |- *.
    destruct S1 as (SE & Sx & HEx), S2 as (_ & Sy & HEy).
    apply StronglySorted_inv in Sx. destruct Sx as [Sx Hx].
    rewrite Forall_forall in Hx.
    repeat split.
    + apply StronglySorted_app_iff. repeat split;
        [assumption|repeat constructor|].
      intros a b Ha [<-|[]]. apply HEy; simpl; auto.
    + constructor; [assumption|now apply Forall_forall].
    + intros a b Ha Hb. apply in_app_or in Ha.
      destruct Ha as [Ha|[<-|[]]]; [now apply HEx|].
      destruct Hb as [<-|Hb]; [assumption|].
      eapply le_trans; [exact Hyx|now apply Hx].
  - rewrite <- app_assoc. assumption.
Qed.

(** The first round: a line of each side is read, [x] is written and
    [y] is held. *)
Lemma held_first La Lb fa fb x ra y rb :
  La = lines_of fa -> Lb = lines_of fb ->
  StronglySorted le La -> StronglySorted le Lb ->
  getline fa = Some (x, ra) -> getline fb = Some (y, rb) -> le x y ->
  held Lb La y rb ra 0 1 [x].
Proof.
  intros -> -> Sa Sb Ha Hb Hxy.
  rewrite (getline_some _ _ _ Ha) in *. rewrite (getline_some _ _ _ Hb) in *.
  exists [], [x]. repeat split; try reflexivity.
  - simpl. constructor; [assumption|].
    apply StronglySorted_inv in Sb. destruct Sb as [_ Hy].
    constructor; [assumption|].
    rewrite Forall_forall in Hy |- *. intros b Hb'.
    eapply le_trans; [exact Hxy|now apply Hy].
  - exact Sa.
Qed.

Lemma inv_init : inv [] (init_locals f1 f2) w0.
Proof.
  unfold inv, init_locals. simpl. rewrite app_nil_r.
  repeat split; try lia. left. repeat split.
Qed.

Lemma guard_true st :
  loop_guard c1 c2 st = true ->
  processed_c1 st <> c1 /\ processed_c2 st <> c2.
Proof.
  unfold loop_guard. rewrite andb_true_iff, !negb_true_iff, !Z.eqb_neq.
  tauto.
Qed.

Lemma guard_false st :
  loop_guard c1 c2 st = false ->
  processed_c1 st = c1 \/ processed_c2 st = c2.
Proof.
  unfold loop_guard. rewrite andb_false_iff, !negb_false_iff, !Z.eqb_eq.
  tauto.
Qed.

Lemma stdout_snoc E x w :
  stdout w = stdout w0 ++ map printed E ->
  stdout w ++ [printed x] = stdout w0 ++ map printed (E ++ [x]).
Proof. intros ->. now rewrite map_app, app_assoc. Qed.

Lemma inv_snoc E x w st' :
  stdout w = stdout w0 ++ map printed E -> stderr w = stderr w0 ->
  0 <= processed_c1 st' <= c1 -> 0 <= processed_c2 st' <= c2 ->
  (lock st' = 0 /\ E ++ [x] = [] /\ processed_c1 st' = 0 /\
   processed_c2 st' = 0 /\ file1 st' = f1 /\ file2 st' = f2)
  \/ (lock st' = 1 /\ processed_c1 st' < c1 /\
      held (lines_of f1) (lines_of f2) (left st') (file1 st') (file2 st')
           (processed_c1 st') (processed_c2 st') (E ++ [x]))
  \/ (lock st' = 2 /\ processed_c2 st' < c2 /\
      held (lines_of f2) (lines_of f1) (right st') (file2 st') (file1 st')
           (processed_c2 st') (processed_c1 st') (E ++ [x])) ->
  inv (E ++ [x]) st' (with_out w (printed x)).
Proof.
  intros Hout Herr H1 H2 H. unfold inv.
  split; [apply stdout_snoc; assumption|]. now repeat split.
Qed.

(** One round of the loop: a line is written and its side's counter
    goes up by one, or a read fails. *)
Lemma loop_body_step E st w :
  inv E st w -> loop_guard c1 c2 st = true ->
  (exists x st' w',
      loop_body st w = Ret st' w' /\ inv (E ++ [x]) st' w' /\
      lock st' <> 0 /\ (size st' < size st)%nat /\
      w' = with_out w (printed x) /\
      ((processed_c1 st' = processed_c1 st + 1 /\
        processed_c2 st' = processed_c2 st) \/
       (processed_c1 st' = processed_c1 st /\
        processed_c2 st' = processed_c2 st + 1)))
  \/ (loop_body st w = Exit EXIT_FAILURE (with_err w diagnostic) /\
      read_failed E (with_err w diagnostic) /\ short).
Proof.
  intros (Hout & Herr & Hp1 & Hp2 & Hcase) Hg.
  apply guard_true in Hg. destruct Hg as [Hg1 Hg2].
  assert (Hfail : read_failed E (with_err w diagnostic))
    by (split; simpl; congruence).
  unfold loop_body, refill.
  destruct Hcase as [(Hl & -> & Hz1 & Hz2 & Hf1 & Hf2)
                    |[(Hl & Hlt & Hh)|(Hl & Hlt & Hh)]];
    rewrite Hl; cbn [Z.eqb Pos.eqb].
  - (* nothing is held *)
    destruct (getline (file1 st)) as [[x r1]|] eqn:G1.
    2:{ right. rewrite (bind_exit _ _ _ _ _ (bind_exit _ _ _ _ _
                 (read_left_none _ w G1))).
        repeat split; try apply Hfail. left. rewrite Hf1 in G1.
        rewrite (getline_none _ G1). simpl. lia. }
    destruct (getline (file2 st)) as [[y r2]|] eqn:G2.
    2:{ right. rewrite (bind_exit _ _ _ _ _
                 (eq_trans (bind_ret _ _ _ _ _ (read_left_some _ w _ _ G1))
                           (read_right_none (set_left x r1 st) w G2))).
        repeat split; try apply Hfail. right. rewrite Hf2 in G2.
        rewrite (getline_none _ G2). simpl. lia. }
    assert (Px : P x).
    { rewrite <- Hf1, (getline_some _ _ _ G1) in HP1. now inversion HP1. }
    assert (Py : P y).
    { rewrite <- Hf2, (getline_some _ _ _ G2) in HP2. now inversion HP2. }
    left. rewrite (bind_ret _ _ _ _ _
             (eq_trans (bind_ret _ _ _ _ _ (read_left_some _ w _ _ G1))
                       (read_right_some (set_left x r1 st) w _ _ G2))).
    destruct (Z.lt_decidable (strcmp x y) 0) as [Hc|Hc].
    + rewrite cmp_lock_lt by (cbn; auto).
      rewrite emit_left_ok by (cbn; eapply getline_last; eauto).
      cbn [set_left set_right left right file1 file2 lock
                    processed_c1 processed_c2].
      exists x. eexists. eexists. split; [reflexivity|].
      split; [|split; [cbn; lia|split; [|split; [reflexivity|cbn; lia]]]].
      * apply inv_snoc; cbn; try assumption; try lia.
        right; right. split; [reflexivity|]. split; [lia|].
        rewrite Hz1, Hz2.
        eapply (held_first (lines_of f1) (lines_of f2) f1 f2); eauto;
          congruence.
      * unfold size. cbn. apply getline_shorter in G1, G2. lia.
    + rewrite cmp_lock_ge by (cbn; auto).
      rewrite emit_right_ok by (cbn; eapply getline_last; eauto).
      cbn [set_left set_right left right file1 file2 lock
                    processed_c1 processed_c2].
      exists y. eexists. eexists. split; [reflexivity|].
      split; [|split; [cbn; lia|split; [|split; [reflexivity|cbn; lia]]]].
      * apply inv_snoc; cbn; try assumption; try lia.
        right; left. split; [reflexivity|]. split; [lia|].
        rewrite Hz1, Hz2.
        eapply (held_first (lines_of f2) (lines_of f1) f2 f1); eauto;
          congruence.
      * unfold size. cbn. apply getline_shorter in G1, G2. lia.
  - (* the left line is held, a right line is read *)
    destruct (getline (file2 st)) as [[y r2]|] eqn:G2.
    2:{ right. rewrite (bind_exit _ _ _ _ _ (read_right_none _ w G2)).
        repeat split; try apply Hfail. right.
        rewrite (held_short _ _ _ _ _ _ _ _ Hh G2). lia. }
    pose proof (held_P _ _ _ _ _ _ _ _ HP1 Hh) as Px.
    pose proof (held_next_P _ _ _ _ _ _ _ _ _ _ HP2 Hh G2) as Py.
    pose proof (held_last f1 _ _ _ _ _ _ _ _ eq_refl Hh) as Lx.
    left. rewrite (bind_ret _ _ _ _ _ (read_right_some _ w _ _ G2)).
    destruct (Z.lt_decidable (strcmp (left st) y) 0) as [Hc|Hc].
    + rewrite cmp_lock_lt by (cbn; auto).
      rewrite emit_left_ok by (cbn; assumption).
      cbn [set_left set_right left right file1 file2 lock
                    processed_c1 processed_c2].
      exists (left st). eexists. eexists. split; [reflexivity|].
      split; [|split; [cbn; lia|split; [|split; [reflexivity|cbn; lia]]]].
      * apply inv_snoc; cbn; try assumption; try lia.
        right; right. split; [reflexivity|]. split; [lia|].
        eapply held_swap; eauto.
      * unfold size. cbn. apply getline_shorter in G2. lia.
    + rewrite cmp_lock_ge by (cbn; auto).
      rewrite emit_right_ok by (cbn; eapply getline_last; eauto).
      cbn [set_left set_right left right file1 file2 lock
                    processed_c1 processed_c2].
      exists y. eexists. eexists. split; [reflexivity|].
      split; [|split; [cbn; lia|split; [|split; [reflexivity|cbn; lia]]]].
      * apply inv_snoc; cbn; try assumption; try lia.
        right; left. split; [reflexivity|]. split; [lia|].
        eapply held_keep; eauto.
      * unfold size. cbn. apply getline_shorter in G2. lia.
  - (* the right line is held, a left line is read *)
    destruct (getline (file1 st)) as [[x r1]|] eqn:G1.
    2:{ right. rewrite (bind_exit _ _ _ _ _ (read_left_none _ w G1)).
        repeat split; try apply Hfail. left.
        rewrite (held_short _ _ _ _ _ _ _ _ Hh G1). lia. }
    pose proof (held_P _ _ _ _ _ _ _ _ HP2 Hh) as Py.
    pose proof (held_next_P _ _ _ _ _ _ _ _ _ _ HP1 Hh G1) as Px.
    pose proof (held_last f2 _ _ _ _ _ _ _ _ eq_refl Hh) as Ly.
    left. rewrite (bind_ret _ _ _ _ _ (read_left_some _ w _ _ G1)).
    destruct (Z.lt_decidable (strcmp x (right st)) 0) as [Hc|Hc].
    + rewrite cmp_lock_lt by (cbn; auto).
      rewrite emit_left_ok by (cbn; eapply getline_last; eauto).
      cbn [set_left set_right left right file1 file2 lock
                    processed_c1 processed_c2].
      exists x. eexists. eexists. split; [reflexivity|].
      split; [|split; [cbn; lia|split; [|split; [reflexivity|cbn; lia]]]].
      * apply inv_snoc; cbn; try assumption; try lia.
        right; right. split; [reflexivity|]. split; [lia|].
        eapply held_keep; eauto.
      * unfold size. cbn. apply getline_shorter in G1. lia.
    + rewrite cmp_lock_ge by (cbn; auto).
      rewrite emit_right_ok by (cbn; assumption).
      cbn [set_left set_right left right file1 file2 lock
                    processed_c1 processed_c2].
      exists (right st). eexists. eexists. split; [reflexivity|].
      split; [|split; [cbn; lia|split; [|split; [reflexivity|cbn; lia]]]].
      * apply inv_snoc; cbn; try assumption; try lia.
        right; left. split; [reflexivity|]. split; [lia|].
        eapply held_swap; eauto.
      * unfold size. cbn. apply getline_shorter in G1. lia.
Qed.


(** The loop from any state between two rounds: it comes to its end
    with a line held, or a read fails on a stream that is short. *)
Lemma loop_spec fuel : forall E st w,
  inv E st w -> (size st < fuel)%nat ->
  (exists n E' st' w',
      loop fuel c1 c2 st w = Ret st' w' /\ inv E' st' w' /\
      loop_guard c1 c2 st' = false /\
      (lock st <> 0 \/ loop_guard c1 c2 st = true -> lock st' <> 0) /\
      loop_runs c1 c2 n st w st' w')
  \/ (exists E' w',
        loop fuel c1 c2 st w = Exit EXIT_FAILURE w' /\ read_failed E' w' /\
        short).
Proof.
  induction fuel as [|fuel IH]; intros E st w Hinv Hsize; [lia|].
  simpl. destruct (loop_guard c1 c2 st) eqn:Hg.
  - destruct (loop_body_step E st w Hinv Hg)
      as [(x & st1 & w1 & Hb & Hinv1 & Hl1 & Hs1' & _)|(Hb & Hf & Hsh)].
    + rewrite (bind_ret _ _ _ _ _ Hb).
      destruct (IH _ st1 w1 Hinv1 ltac:(lia))
        as [(n & E' & st' & w' & Hr & Hinv' & Hg' & Hl' & Hruns)
           |(E' & w' & Hr & Hf & Hsh)].
      * left. exists (S n), E', st', w'.
        split; [assumption|]. split; [assumption|]. split; [assumption|].
        split; [auto|]. econstructor; eauto.
      * right. exists E', w'. auto.
    + right. exists E, (with_err w diagnostic).
      rewrite (bind_exit _ _ _ _ _ Hb). auto.
  - left. exists O, E, st, w.
    split; [reflexivity|]. split; [assumption|]. split; [assumption|].
    split; [|constructor]. intros [H|H]; [assumption|congruence].
Qed.


Lemma held_lengths La Lb x ra rb pa pb E :
  held La Lb x ra rb pa pb E ->
  Z.of_nat (List.length La)
  = pa + 1 + Z.of_nat (List.length (lines_of ra)) /\
  Z.of_nat (List.length Lb) = pb + Z.of_nat (List.length (lines_of rb)).
Proof.
  intros (A & B & -> & -> & -> & -> & _).
  rewrite !length_app. simpl. lia.
Qed.

(** Once side b is read to its end, the lines written, the held line
    and the rest of side a are the two streams merged. *)
Lemma held_done La Lb x ra rb pa pb E :
  held La Lb x ra rb pa pb E -> lines_of rb = [] ->
  Permutation (E ++ x :: lines_of ra) (La ++ Lb) /\
  StronglySorted le (E ++ x :: lines_of ra).
Proof.
  intros (A & B & -> & -> & _ & _ & HE & S1 & _) Hb.
  split; [|assumption]. rewrite Hb, app_nil_r.
  rewrite (Permutation_app_tail _ HE).
  rewrite <- !app_assoc. apply Permutation_app_head.
  apply Permutation_app_comm.
Qed.

(** The held line and the lines still to come, when both streams have
    the lines promised. *)
Lemma finish_exact E st w :
  inv E st w -> loop_guard c1 c2 st = false -> lock st <> 0 -> exact ->
  exists E' st' w',
    (st2 <- flush_lock st ;; drain c1 c2 st2) w = Ret st' w' /\
    stdout w' = stdout w0 ++ map printed E' /\ stderr w' = stderr w0 /\
    Permutation E' (lines_of f1 ++ lines_of f2) /\
    StronglySorted le E'.
Proof.
  intros (Hout & Herr & Hp1 & Hp2 & Hcase) Hg Hl0 [Hx1 Hx2].
  apply guard_false in Hg.
  destruct Hcase as [(Hl & _)|[(Hl & Hlt & Hh)|(Hl & Hlt & Hh)]];
    [contradiction| |].
  - destruct (held_lengths _ _ _ _ _ _ _ _ Hh) as [Hn1 Hn2].
    assert (Hr2 : lines_of (file2 st) = [])
      by (apply length_zero_iff_nil; lia).
    destruct (held_done _ _ _ _ _ _ _ _ Hh Hr2) as [HP HS].
    rewrite (bind_ret _ _ _ _ _
               (flush_lock_left st w Hl (held_last f1 _ _ _ _ _ _ _ _ eq_refl Hh))).
    exists (E ++ left st :: lines_of (file1 st)).
    unfold drain. cbn [processed_c1 processed_c2].
    destruct (Z.eqb_spec (processed_c1 st + 1) c1) as [He|He];
      cbn [negb].
    + destruct (Z.eqb_spec (processed_c2 st) c2) as [_|]; [|lia].
      cbn [negb]. eexists. eexists. split; [reflexivity|].
      assert (Hr1 : lines_of (file1 st) = [])
        by (apply length_zero_iff_nil; lia).
      rewrite Hr1 in *. cbn [stdout stderr with_out].
      repeat split; try assumption. now apply stdout_snoc.
    + edestruct (drain_left_ok (Z.to_nat (c1 - (processed_c1 st + 1))))
        as (st' & Hd); [|rewrite Hd].
      { cbn [file1]. lia. }
      eexists. eexists. split; [reflexivity|].
      cbn [stdout stderr with_out file1].
      rewrite firstn_all2 by lia.
      repeat split; try assumption.
      rewrite Hout, map_app, <- !app_assoc. reflexivity.
  - destruct (held_lengths _ _ _ _ _ _ _ _ Hh) as [Hn2 Hn1].
    assert (Hr1 : lines_of (file1 st) = [])
      by (apply length_zero_iff_nil; lia).
    destruct (held_done _ _ _ _ _ _ _ _ Hh Hr1) as [HP HS].
    rewrite (Permutation_app_comm (lines_of f2)) in HP.
    rewrite (bind_ret _ _ _ _ _
               (flush_lock_right st w Hl (held_last f2 _ _ _ _ _ _ _ _ eq_refl Hh))).
    exists (E ++ right st :: lines_of (file2 st)).
    unfold drain. cbn [processed_c1 processed_c2].
    destruct (Z.eqb_spec (processed_c1 st) c1) as [_|]; [|lia].
    cbn [negb].
    destruct (Z.eqb_spec (processed_c2 st + 1) c2) as [He|He];
      cbn [negb].
    + eexists. eexists. split; [reflexivity|].
      assert (Hr2 : lines_of (file2 st) = [])
        by (apply length_zero_iff_nil; lia).
      rewrite Hr2 in *. cbn [stdout stderr with_out].
      repeat split; try assumption. now apply stdout_snoc.
    + edestruct (drain_right_ok (Z.to_nat (c2 - (processed_c2 st + 1))))
        as (st' & Hd); [|rewrite Hd].
      { cbn [file2]. lia. }
      eexists. eexists. split; [reflexivity|].
      cbn [stdout stderr with_out file2].
      rewrite firstn_all2 by lia.
      repeat split; try assumption.
      rewrite Hout, map_app, <- !app_assoc. reflexivity.
Qed.


Lemma init_guard : loop_guard c1 c2 (init_locals f1 f2) = true.
Proof.
  unfold loop_guard, init_locals. cbn [processed_c1 processed_c2].
  destruct (Z.eqb_spec 0 c1); [lia|]. destruct (Z.eqb_spec 0 c2); [lia|].
  reflexivity.
Qed.

Lemma init_size : (size (init_locals f1 f2) < loop_fuel f1 f2)%nat.
Proof. unfold size, loop_fuel, init_locals. cbn. lia. Qed.

(** The loop of [mergesort]: it ends with a line held, after some
    number of rounds, or a read fails on a short stream. *)
Lemma loop_from_init :
  (exists n E st' w',
      loop (loop_fuel f1 f2) c1 c2 (init_locals f1 f2) w0 = Ret st' w' /\
      inv E st' w' /\ loop_guard c1 c2 st' = false /\ lock st' <> 0 /\
      loop_runs c1 c2 n (init_locals f1 f2) w0 st' w')
  \/ (exists E' w',
        loop (loop_fuel f1 f2) c1 c2 (init_locals f1 f2) w0
        = Exit EXIT_FAILURE w' /\ read_failed E' w' /\ short).
Proof.
  destruct (loop_spec _ _ _ _ inv_init init_size)
    as [(n & E & st' & w' & Hr & Hi & Hg & Hl & Hruns)|H]; [left|now right].
  exists n, E, st', w'.
  split; [assumption|]. split; [assumption|]. split; [assumption|].
  split; [|assumption]. apply Hl. right. apply init_guard.
Qed.

Lemma merge_general_exact :
  exact ->
  exists E st' w',
    merge_general f1 f2 c1 c2 w0 = Ret st' w' /\
    stdout w' = stdout w0 ++ map printed E /\ stderr w' = stderr w0 /\
    Permutation E (lines_of f1 ++ lines_of f2) /\ StronglySorted le E.
Proof.
  intro Hx. unfold merge_general.
  destruct loop_from_init
    as [(n & E & st' & w' & Hr & Hi & Hg & Hl & _)|(E & w' & _ & _ & Hsh)].
  - rewrite (bind_ret _ _ _ _ _ Hr). now apply (finish_exact E).
  - destruct Hx, Hsh; lia.
Qed.


End Merge.

Lemma any_order_sorted l : StronglySorted any_order l.
Proof.
  induction l; constructor; [assumption|].
  apply Forall_forall. intros; exact I.
Qed.

Lemma any_line_all l : Forall any_line l.
Proof. apply Forall_forall. intros; exact I. Qed.

Lemma any_trans a b c : any_order a b -> any_order b c -> any_order a c.
Proof. intros; exact I. Qed.

Lemma any_lt a b : any_line a -> any_line b -> strcmp a b < 0 -> any_order a b.
Proof. intros; exact I. Qed.

Lemma any_ge a b :
  any_line a -> any_line b -> ~ strcmp a b < 0 -> any_order b a.
Proof. intros; exact I. Qed.

(** ** The fuel of the merge loop is enough *)












(** ** The trivial case *)

Lemma loop_done fuel c1 c2 st w :
  loop_guard c1 c2 st = false -> loop fuel c1 c2 st w = Ret st w.
Proof. intro H. destruct fuel; simpl; now rewrite H. Qed.

Lemma loop_round fuel c1 c2 st :
  loop_guard c1 c2 st = true ->
  loop (S fuel) c1 c2 st = (st' <- loop_body st ;; loop fuel c1 c2 st').
Proof. intro H. simpl. now rewrite H. Qed.

Lemma refill_init f1 f2 :
  refill (init_locals f1 f2)
  = (st1 <- read_left (init_locals f1 f2) ;; read_right st1).
Proof. reflexivity. Qed.

Lemma first_round_none1 f1 f2 w :
  getline f1 = None ->
  loop_body (init_locals f1 f2) w = Exit EXIT_FAILURE (with_err w diagnostic).
Proof.
  intro G1. unfold loop_body. rewrite refill_init.
  apply bind_exit, bind_exit, read_left_none. exact G1.
Qed.

Lemma first_round_none2 f1 f2 w x r1 :
  getline f1 = Some (x, r1) -> getline f2 = None ->
  loop_body (init_locals f1 f2) w = Exit EXIT_FAILURE (with_err w diagnostic).
Proof.
  intros G1 G2. unfold loop_body. rewrite refill_init.
  apply bind_exit.
  rewrite (bind_ret _ _ _ _ _ (read_left_some (init_locals f1 f2) w _ _ G1)).
  apply read_right_none. exact G2.
Qed.

Lemma first_round_lt f1 f2 w x r1 y r2 :
  getline f1 = Some (x, r1) -> getline f2 = Some (y, r2) ->
  strcmp x y < 0 ->
  loop_body (init_locals f1 f2) w
  = Ret (mkLocals r1 r2 (content x) y 2 1 0) (with_out w (printed x)).
Proof.
  intros G1 G2 Hc. unfold loop_body. rewrite refill_init.
  rewrite (bind_ret _ _ _ _ _
             (eq_trans (bind_ret _ _ _ _ _
                          (read_left_some (init_locals f1 f2) w _ _ G1))
                       (read_right_some (set_left x r1 (init_locals f1 f2))
                                        w _ _ G2))).
  rewrite cmp_lock_lt by (cbn; auto).
  rewrite emit_left_ok by (cbn; eapply getline_last; eauto).
  reflexivity.
Qed.

Lemma first_round_ge f1 f2 w x r1 y r2 :
  getline f1 = Some (x, r1) -> getline f2 = Some (y, r2) ->
  ~ strcmp x y < 0 ->
  loop_body (init_locals f1 f2) w
  = Ret (mkLocals r1 r2 x (content y) 1 0 1) (with_out w (printed y)).
Proof.
  intros G1 G2 Hc. unfold loop_body. rewrite refill_init.
  rewrite (bind_ret _ _ _ _ _
             (eq_trans (bind_ret _ _ _ _ _
                          (read_left_some (init_locals f1 f2) w _ _ G1))
                       (read_right_some (set_left x r1 (init_locals f1 f2))
                                        w _ _ G2))).
  rewrite cmp_lock_ge by (cbn; auto).
  rewrite emit_right_ok by (cbn; eapply getline_last; eauto).
  reflexivity.
Qed.

Lemma merge_trivial_general (f1 f2 : FILE) (w : io) :
  merge_trivial f1 f2 w
  = (merge_general f1 f2 1 1 ;;; exit EXIT_SUCCESS) w.
Proof.
  unfold merge_trivial, merge_general, loop_fuel.
  rewrite loop_round by reflexivity.
  destruct (getline f1) as [[x r1]|] eqn:G1.
  2:{ rewrite (bind_exit _ _ _ _ _ (readline_none _ w G1)).
      symmetry. apply bind_exit, bind_exit, bind_exit.
      now apply first_round_none1. }
  rewrite (bind_ret _ _ _ _ _ (readline_some _ _ _ w G1)).
  destruct (getline f2) as [[y r2]|] eqn:G2.
  2:{ rewrite (bind_exit _ _ _ _ _ (readline_none _ w G2)).
      symmetry. apply bind_exit, bind_exit, bind_exit.
      now apply (first_round_none2 _ _ _ x r1). }
  rewrite (bind_ret _ _ _ _ _ (readline_some _ _ _ w G2)).
  pose proof (getline_last _ _ _ G1) as Lx.
  pose proof (getline_last _ _ _ G2) as Ly.
  cbn [fst snd].
  destruct (Z.ltb_spec (strcmp x y) 0) as [Hc|Hc].
  - rewrite (bind_ret _ _ _ _ _
               (eq_trans (bind_ret _ _ _ _ _ (print_ok x w Lx))
                         (print_ok y _ Ly))).
    symmetry. eapply bind_ret_eq; [|reflexivity].
    eapply bind_ret_eq.
    + eapply bind_ret_eq; [now apply (first_round_lt _ _ _ _ _ _ _ G1 G2)|].
      now apply loop_done.
    + eapply bind_ret_eq; [now apply flush_lock_right|]. reflexivity.
  - apply Z.le_ngt in Hc.
    rewrite (bind_ret _ _ _ _ _
               (eq_trans (bind_ret _ _ _ _ _ (print_ok y w Ly))
                         (print_ok x _ Lx))).
    symmetry. eapply bind_ret_eq; [|reflexivity].
    eapply bind_ret_eq.
    + eapply bind_ret_eq; [now apply (first_round_ge _ _ _ _ _ _ _ G1 G2)|].
      now apply loop_done.
    + eapply bind_ret_eq; [now apply flush_lock_left|]. reflexivity.
Qed.

(** ** [mergesort] as a whole *)










Section Mergesort.

Variable le : string -> string -> Prop.
Variable P : string -> Prop.
Hypothesis le_trans : forall a b c, le a b -> le b c -> le a c.
Hypothesis cmp_lt : forall a b, P a -> P b -> strcmp a b < 0 -> le a b.
Hypothesis cmp_ge : forall a b, P a -> P b -> ~ strcmp a b < 0 -> le b a.

Variables f1 f2 : FILE.
Variables c1 c2 : Z.
Variable w0 : io.
Hypothesis HP1 : Forall P (lines_of f1).
Hypothesis HP2 : Forall P (lines_of f2).
Hypothesis Hs1 : StronglySorted le (lines_of f1).
Hypothesis Hs2 : StronglySorted le (lines_of f2).
Hypothesis Hc1 : 1 <= c1.
Hypothesis Hc2 : 1 <= c2.

(** Streams with the lines promised, each in order: the lines of both
    are written, in order. *)
Lemma mergesort_exact :
  exact f1 f2 c1 c2 ->
  exists E w',
    ends_well (mergesort f1 f2 c1 c2 w0) w' /\
    stdout w' = stdout w0 ++ map printed E /\ stderr w' = stderr w0 /\
    Permutation E (lines_of f1 ++ lines_of f2) /\ StronglySorted le E.
Proof.
  intro Hx.
  destruct (merge_general_exact le P le_trans cmp_lt cmp_ge f1 f2 c1 c2 w0
              HP1 HP2 Hs1 Hs2 Hc1 Hc2 Hx)
    as (E & st' & w' & Hr & Hrest).
  exists E, w'. split; [|exact Hrest].
  unfold mergesort.
  destruct (Z.eqb_spec c1 1) as [->|]; [destruct (Z.eqb_spec c2 1) as [->|]|];
    cbn [andb].
  - right. rewrite merge_trivial_general.
    now rewrite (bind_ret _ _ _ _ _ Hr).
  - left. now rewrite (bind_ret _ _ _ _ _ Hr).
  - left. now rewrite (bind_ret _ _ _ _ _ Hr).
Qed.


End Mergesort.

(** ** The loop without an order *)

Lemma nth_error_held {A} (l : list A) x r :
  nth_error (l ++ x :: r) (List.length l) = Some x.
Proof. induction l; simpl; auto. Qed.

Section Counting.

Variables f1 f2 : FILE.
Variables c1 c2 : Z.
Variable w0 : io.
Hypothesis Hc1 : 1 <= c1.
Hypothesis Hc2 : 1 <= c2.

Local Abbreviation inv0 := (inv0 f1 f2 c1 c2 w0).

Lemma loop_from_init0 :
  (exists n E st' w',
      loop (loop_fuel f1 f2) c1 c2 (init_locals f1 f2) w0 = Ret st' w' /\
      inv0 E st' w' /\ loop_guard c1 c2 st' = false /\ lock st' <> 0 /\
      loop_runs c1 c2 n (init_locals f1 f2) w0 st' w')
  \/ (exists E' w',
        loop (loop_fuel f1 f2) c1 c2 (init_locals f1 f2) w0
        = Exit EXIT_FAILURE w' /\ read_failed w0 E' w' /\
        short f1 f2 c1 c2).
Proof.
  exact (loop_from_init any_order any_line any_trans any_lt any_ge
           f1 f2 c1 c2 w0 (any_line_all _) (any_line_all _)
           (any_order_sorted _) (any_order_sorted _) Hc1 Hc2).
Qed.



(** What is held when the loop has come to its end. *)
Lemma loop_exit_held E st w :
  inv0 E st w -> loop_guard c1 c2 st = false -> lock st <> 0 ->
  (lock st = 1 /\ processed_c2 st = c2 /\ processed_c1 st < c1 /\
   nth_error (lines_of f1) (Z.to_nat (processed_c1 st)) = Some (left st))
  \/ (lock st = 2 /\ processed_c1 st = c1 /\ processed_c2 st < c2 /\
      nth_error (lines_of f2) (Z.to_nat (processed_c2 st))
      = Some (right st)).
Proof.
  intros (_ & _ & Hp1 & Hp2 & Hcase) Hg Hl0.
  apply guard_false in Hg.
  destruct Hcase as [(Hl & _)|[(Hl & Hlt & Hh)|(Hl & Hlt & Hh)]];
    [contradiction|left|right];
    destruct Hh as (A & B & -> & _ & HA & _);
    (split; [assumption|]); (split; [lia|]); (split; [assumption|]);
    rewrite HA, Nat2Z.id; apply nth_error_held.
Qed.

Lemma loop_exit_flush E st w :
  inv0 E st w -> lock st <> 0 ->
  exists st2 x, flush_lock st w = Ret st2 (with_out w x).
Proof.
  intros (_ & _ & _ & _ & Hcase) Hl0.
  destruct Hcase as [(Hl & _)|[(Hl & Hlt & Hh)|(Hl & Hlt & Hh)]];
    [contradiction| |].
  - rewrite (flush_lock_left st w Hl
               (held_last any_order f1 _ _ _ _ _ _ _ _ eq_refl Hh)).
    eauto.
  - rewrite (flush_lock_right st w Hl
               (held_last any_order f2 _ _ _ _ _ _ _ _ eq_refl Hh)).
    eauto.
Qed.

End Counting.

(** ** The order of [strcmp] and the order of the contents *)

Lemma byte_nl c : byte c = 10 -> c = nl.
Proof.
  unfold byte. intro H. rewrite <- (ascii_N_embedding c).
  replace (N_of_ascii c) with 10%N by lia. reflexivity.
Qed.

Lemma content_cons c l :
  l <> EmptyString -> content (String c l) = String c (content l).
Proof.
  destruct l as [|d l]; [congruence|]. intros _. unfold content.
  change (last_byte (String c (String d l))) with (last_byte (String d l)).
  change (drop_last (String c (String d l)))
    with (String c (drop_last (String d l))).
  destruct (last_byte (String d l)) as [e|]; [|reflexivity].
  destruct (Ascii.eqb e nl); reflexivity.
Qed.

Lemma content_single c :
  content (String c EmptyString)
  = if Ascii.eqb c nl then EmptyString else String c EmptyString.
Proof. reflexivity. Qed.

(** The lines of a stream with no byte below the line feed have all
    their bytes above it, the terminator apart. *)
Lemma lines_of_above f :
  low_free f -> Forall (fun l => above_nl (content l)) (lines_of f).
Proof.
  induction f as [|c rest IH]; [constructor|].
  intros [Hc Hrest]. specialize (IH Hrest). cbn [lines_of].
  destruct (Ascii.eqb c nl) eqn:E.
  - constructor; [|assumption]. rewrite content_single, E. exact I.
  - assert (Hb : 10 < byte c).
    { apply Ascii.eqb_neq in E.
      destruct (Z.eq_dec (byte c) 10) as [H10|]; [|lia].
      elim E. now apply byte_nl. }
    pose proof (lines_of_last rest) as Hlast.
    destruct (lines_of rest) as [|l ls].
    + constructor; [|constructor]. rewrite content_single, E. now split.
    + inversion IH; subst. inversion Hlast; subst.
      constructor; [|assumption].
      rewrite content_cons by (destruct l; [simpl in *; congruence|discriminate]).
      now split.
Qed.

Lemma content_tail l : exists t, tail t /\ l = (content l ++ t)%string.
Proof.
  induction l as [|c l IH].
  - exists EmptyString. split; [now left|reflexivity].
  - destruct l as [|d l].
    + rewrite content_single. destruct (Ascii.eqb c nl) eqn:E.
      * apply Ascii.eqb_eq in E. subst. exists (String nl "").
        split; [now right|reflexivity].
      * exists EmptyString. split; [now left|reflexivity].
    + rewrite content_cons by discriminate.
      destruct IH as (t & Ht & Heq). exists t. split; [assumption|].
      simpl. now rewrite <- Heq.
Qed.

Lemma ascii_compare_nl d : 10 < byte d -> Ascii.compare nl d = Lt.
Proof.
  unfold byte, Ascii.compare. intro H. apply N.compare_lt_iff.
  change (N_of_ascii nl) with 10%N. lia.
Qed.

Lemma compare_tail ca : forall cb ta tb,
  above_nl ca -> above_nl cb -> tail ta -> tail tb ->
  String.compare ca cb = Lt ->
  String.compare (ca ++ ta) (cb ++ tb) = Lt.
Proof.
  induction ca as [|c ca IH]; intros [|d cb] ta tb Ha Hb Hta Htb;
    simpl; try discriminate.
  - intros _. destruct Hb as [Hd _].
    destruct Hta as [->| ->]; [reflexivity|].
    simpl. now rewrite ascii_compare_nl.
  - destruct Ha as [_ Ha], Hb as [_ Hb].
    destruct (Ascii.compare c d); try discriminate; auto.
Qed.

Lemma cmp_content_lt a b :
  above_nl (content a) -> above_nl (content b) ->
  strcmp a b < 0 -> line_le (content a) (content b).
Proof.
  intros Ha Hb Hc. unfold line_le. apply strcmp_le_iff. intro Hgt.
  destruct (content_tail a) as (ta & Hta & Ea).
  destruct (content_tail b) as (tb & Htb & Eb).
  assert (H : String.compare (content b) (content a) = Lt)
    by (rewrite String.compare_antisym, Hgt; reflexivity).
  apply (compare_tail _ _ tb ta Hb Ha Htb Hta) in H.
  rewrite <- Ea, <- Eb in H. apply strcmp_lt_iff in Hc.
  rewrite String.compare_antisym, H in Hc. discriminate.
Qed.

Lemma cmp_content_ge a b :
  above_nl (content a) -> above_nl (content b) ->
  ~ strcmp a b < 0 -> line_le (content b) (content a).
Proof.
  intros Ha Hb Hc. unfold line_le. apply strcmp_le_iff. intro Hgt.
  destruct (content_tail a) as (ta & Hta & Ea).
  destruct (content_tail b) as (tb & Htb & Eb).
  assert (H : String.compare (content a) (content b) = Lt)
    by (rewrite String.compare_antisym, Hgt; reflexivity).
  apply (compare_tail _ _ ta tb Ha Hb Hta Htb) in H.
  rewrite <- Ea, <- Eb in H. apply Hc. now apply strcmp_lt_iff.
Qed.

Lemma StronglySorted_map {A B} (f : A -> B) (R : B -> B -> Prop) l :
  StronglySorted (fun a b => R (f a) (f b)) l <-> StronglySorted R (map f l).
Proof.
  induction l as [|x l IH]; simpl.
  - split; constructor.
  - split; intro H; apply StronglySorted_inv in H; destruct H as [H Hx];
      constructor; try (now apply IH).
    + rewrite Forall_map. exact Hx.
    + rewrite Forall_map in Hx. exact Hx.
Qed.

Lemma line_le_sorted l : Sorted line_le l <-> StronglySorted line_le l.
Proof.
  split; [|apply StronglySorted_Sorted].
  apply Sorted_StronglySorted. intros a b c. apply strcmp_le_trans.
Qed.

Lemma terminated_inj a b : terminated a = terminated b -> a = b.
Proof.
  unfold terminated. revert b.
  induction a as [|c a IH]; intros [|d b]; simpl; intro H.
  - reflexivity.
  - injection H as _ H. destruct b; discriminate.
  - injection H as _ H. destruct a; discriminate.
  - injection H as -> H. f_equal. now apply IH.
Qed.

(** ** Reading the input *)

Lemma length_set_nth i v : forall block,
  List.length (set_nth i v block) = List.length block.
Proof.
  induction i as [|i IH]; intros [|h t]; simpl; try reflexivity.
  now rewrite IH.
Qed.

Lemma firstn_set_nth i v : forall block,
  (i < List.length block)%nat ->
  firstn (S i) (set_nth i v block) = firstn i block ++ [v].
Proof.
  induction i as [|i IH]; intros [|h t] H; simpl in *; try lia.
  - reflexivity.
  - f_equal. apply IH. lia.
Qed.

Lemma store_in_bounds block i v w :
  (i < List.length block)%nat ->
  store block (Z.of_nat i) v w = Ret (set_nth i v block) w.
Proof.
  intro H. unfold store.
  destruct (Z.leb_spec 0 (Z.of_nat i)); [|lia].
  destruct (Z.ltb_spec (Z.of_nat i) (Z.of_nat (List.length block))); [|lia].
  cbn [andb]. now rewrite Nat2Z.id.
Qed.

Lemma store_at_capacity block v w :
  store block (Z.of_nat (List.length block)) v w = Undef.
Proof.
  unfold store. rewrite Z.ltb_irrefl, andb_false_r. reflexivity.
Qed.

(** The loop that reads the input, begun with [k] lines stored in a block
    of [STEPSIZE] cells: it fills the block as long as there are cells
    left, and stores outside of it when there is a line more. *)
Lemma read_lines_spec fuel : forall input k block w,
  (String.length input <= fuel)%nat ->
  List.length block = 10%nat -> (k <= 10%nat)%nat ->
  ((k + List.length (lines_of input) <= 10%nat)%nat ->
   exists block',
     read_lines fuel input (Z.of_nat k) STEPSIZE block w
     = Ret (Z.of_nat (k + List.length (lines_of input)), block') w /\
     List.length block' = 10%nat /\
     firstn (k + List.length (lines_of input)) block'
     = firstn k block ++ lines_of input)
  /\ ((10%nat < k + List.length (lines_of input))%nat ->
      read_lines fuel input (Z.of_nat k) STEPSIZE block w = Undef).
Proof.
  induction fuel as [|fuel IH]; intros input k block w Hfuel Hlen Hk.
  - destruct input; [|simpl in Hfuel; lia]. simpl. split.
    + intros _. exists block. rewrite Nat.add_0_r, app_nil_r. auto.
    + lia.
  - destruct (getline input) as [[l r]|] eqn:G.
    2:{ rewrite (getline_none _ G). cbn [read_lines]. rewrite G. simpl.
        split; [|lia]. intros _. exists block.
        rewrite Nat.add_0_r, app_nil_r. auto. }
    rewrite (getline_some _ _ _ G). cbn [read_lines List.length]. rewrite G.
    pose proof (getline_shorter _ _ _ G) as Hsh.
    destruct (Nat.eq_dec k (10%nat)) as [->|Hne].
    + split; [lia|]. intros _. rewrite <- Hlen.
      unfold bind. now rewrite store_at_capacity.
    + assert (Hlt : (k < List.length block)%nat) by lia.
      rewrite (bind_ret _ _ _ _ _ (store_in_bounds block k l w Hlt)).
      destruct (Z.eqb_spec (Z.of_nat k) STEPSIZE) as [He|_];
        [unfold STEPSIZE in *; lia|].
      replace (Z.of_nat k + 1) with (Z.of_nat (S k)) by lia.
      destruct (IH r (S k) (set_nth k l block) w) as [Hok Hbad];
        [lia|now rewrite length_set_nth|lia|].
      replace (k + S (List.length (lines_of r)))%nat
        with (S k + List.length (lines_of r))%nat by lia.
      split; [|exact Hbad].
      intro Hfit. destruct (Hok Hfit) as (block' & Hr & Hl' & Hf).
      exists block'. split; [exact Hr|]. split; [exact Hl'|].
      rewrite Hf, firstn_set_nth, <- app_assoc by assumption. reflexivity.
Qed.

(** Input of at most [STEPSIZE] lines is read into the block. *)
Lemma ingest_ok input w :
  (List.length (lines_of input) <= 10%nat)%nat ->
  exists block,
    ingest input w = Ret (Z.of_nat (List.length (lines_of input)), block) w /\
    firstn (List.length (lines_of input)) block = lines_of input.
Proof.
  intro H. unfold ingest.
  destruct (read_lines_spec (String.length input) input 0
                            (malloc_cells STEPSIZE) w)
    as [Hok _]; [lia|apply repeat_length|lia|].
  destruct (Hok H) as (block & Hr & _ & Hf). exists block. auto.
Qed.

(** Input of more than [STEPSIZE] lines makes [main] store outside of the
    block. *)
Lemma ingest_overflow input w :
  (10%nat < List.length (lines_of input))%nat ->
  ingest input w = Undef.
Proof.
  intro H. unfold ingest.
  destruct (read_lines_spec (String.length input) input 0
                            (malloc_cells STEPSIZE) w)
    as [_ Hbad]; [lia|apply repeat_length|lia|].
  now apply Hbad.
Qed.

(** Input of one line: the line is written as it was read. *)
Lemma main_single_line fuel input l w :
  lines_of input = [l] ->
  main (S fuel) input w = Exit EXIT_SUCCESS (with_out w l).
Proof.
  intro H. destruct (ingest_ok input w) as (block & Hr & Hf);
    [rewrite H; simpl; lia|].
  rewrite H in Hr, Hf. cbn [main].
  rewrite (bind_ret _ _ _ _ _ Hr). cbn [fst snd List.length Z.of_nat].
  cbn [Z.eqb Pos.of_succ_nat Pos.eqb]. cbv iota.
  destruct block as [|b block]; [discriminate|].
  simpl in Hf. injection Hf as ->. reflexivity.
Qed.

(** ** The order of [strcmp] on the lines as they are read *)

(** On every pair of streams that hold the lines promised, each in the
    order of [strcmp] on the lines as read, the lines are written in that
    order. *)
Lemma mergesort_raw_order (f1 f2 : FILE) (c1 c2 : Z) (w : io) :
  1 <= c1 -> 1 <= c2 -> exact f1 f2 c1 c2 ->
  StronglySorted raw_le (lines_of f1) ->
  StronglySorted raw_le (lines_of f2) ->
  exists E w',
    ends_well (mergesort f1 f2 c1 c2 w) w' /\
    stdout w' = stdout w ++ map printed E /\ stderr w' = stderr w /\
    Permutation E (lines_of f1 ++ lines_of f2) /\ StronglySorted raw_le E.
Proof.
  intros Hc1 Hc2 Hx Hs1 Hs2.
  apply (mergesort_exact raw_le any_line strcmp_le_trans
           (fun a b _ _ => strcmp_lt_le a b) (fun a b _ _ => strcmp_ge_le a b)
           f1 f2 c1 c2 w (any_line_all _) (any_line_all _)
           Hs1 Hs2 Hc1 Hc2 Hx).
Qed.

(** ** The tree of processes on empty input *)

(** On empty input the tree of processes has no leaves. *)
Lemma main_empty fuel : forall w, main fuel EmptyString w = Fuel.
Proof.
  induction fuel as [|fuel IH]; intro w; [reflexivity|].
  cbn [main]. unfold bind at 1.
  cbn [ingest String.length read_lines getline ret fst snd Z.eqb].
  cbv iota zeta.
  change (feed (fst (fst (split 0 (malloc_cells STEPSIZE)))))
    with EmptyString.
  unfold bind at 1, wait, fork. now rewrite IH.
Qed.

(** Two streams in which no byte is below the line feed, each holding the
    number of lines promised (at least one) in non-decreasing order of
    their contents: [mergesort] comes to its end without an error, and what
    it has written are the lines of both streams, each followed by one line
    feed, in non-decreasing order.  On such streams the order of [strcmp]
    on the lines as read and the order of their contents agree. *)
Lemma mergesort_content_order (f1 f2 : FILE) (c1 c2 : Z) (w : io) :
  1 <= c1 -> 1 <= c2 ->
  Z.of_nat (List.length (lines_of f1)) = c1 ->
  Z.of_nat (List.length (lines_of f2)) = c2 ->
  low_free f1 -> low_free f2 ->
  Sorted line_le (contents f1) -> Sorted line_le (contents f2) ->
  merge_sorts f1 f2 c1 c2 w.
Proof.
  intros Hc1 Hc2 Hn1 Hn2 Hl1 Hl2 Hs1 Hs2.
  apply line_le_sorted, StronglySorted_map in Hs1, Hs2.
  destruct (mergesort_exact
              (fun a b => line_le (content a) (content b))
              (fun l => above_nl (content l))
              (fun a b c => strcmp_le_trans (content a) (content b) (content c))
              cmp_content_lt cmp_content_ge f1 f2 c1 c2 w
              (lines_of_above f1 Hl1) (lines_of_above f2 Hl2)
              Hs1 Hs2 Hc1 Hc2 (conj Hn1 Hn2))
    as (E & w' & Hend & Hout & Herr & Hperm & Hsort).
  exists (map content E), w'. split; [assumption|].
  split; [now rewrite map_map|]. split; [assumption|]. split.
  - unfold contents. rewrite <- map_app. now apply Permutation_map.
  - apply line_le_sorted.
    exact (proj1 (StronglySorted_map content line_le E) Hsort).
Qed.

(** * The statements of the specification *)

(** C1 fails on the two one-line streams "A" and "A<tab>B", each in
    order: [cmp_lock] hands [strcmp] the lines with their terminators, and
    the line feed that ends "A" is above the tab that follows "A" in the
    other line.  [mergesort] writes "A<tab>B" before "A", which is not
    non-decreasing.  [print] strips the terminator only afterwards, so the
    order written hangs on the terminator: the same two lines, "A" without
    its line feed, are written as "A", "A<tab>B". *)
Theorem C1_lines_out_of_order :
  let f1 := text ["A"] in
  let f2 := text [String "A" (String "009" "B")] in
  Z.of_nat (List.length (lines_of f1)) = 1 /\
  Z.of_nat (List.length (lines_of f2)) = 1 /\
  Sorted line_le (contents f1) /\ Sorted line_le (contents f2) /\
  mergesort f1 f2 1 1 io0
  = Exit EXIT_SUCCESS
         (mkIO [terminated (String "A" (String "009" "B")); terminated "A"]
               []) /\
  ~ merge_sorts f1 f2 1 1 io0 /\
  contents "A" = contents f1 /\
  mergesort "A" f2 1 1 io0
  = Exit EXIT_SUCCESS
         (mkIO [terminated "A"; terminated (String "A" (String "009" "B"))]
               []).
Proof.
  cbv zeta. split; [reflexivity|]. split; [reflexivity|].
  split; [repeat constructor|]. split; [repeat constructor|].
  split; [vm_compute; reflexivity|].
  split; [|split; [reflexivity|vm_compute; reflexivity]].
  intros (out & w' & Hend & Hout & _ & _ & Hsorted).
  assert (Hw : w' = mkIO [terminated (String "A" (String "009" "B"));
                          terminated "A"] []).
  { destruct Hend as [H|H]; vm_compute in H; [discriminate|].
    injection H as <-. reflexivity. }
  subst w'. cbn [stdout io0 app] in Hout.
  destruct out as [|a [|b [|c out]]]; try discriminate.
  injection Hout as Ha Hb. symmetry in Ha, Hb.
  apply terminated_inj in Ha, Hb. subst.
  inversion Hsorted as [|? ? _ Hhd]; subst.
  inversion Hhd as [|? ? Hle]; subst.
  vm_compute in Hle. congruence.
Qed.

(** C2 as it is stated fails for an odd number of lines: of three lines
    the first child is handed one, not two. *)
Lemma C2_counterexample :
  split 3 ["a"; "b"; "c"] = ((["a"], 1), (["b"; "c"], 2)) /\
  snd (fst (split 3 ["a"; "b"; "c"])) <> (3 + 1) / 2.
Proof. split; [reflexivity|discriminate]. Qed.

(** C2, with the halves as [main] cuts them.  Of [numlines >= 2] lines
    held in the cells of
    [lines], the first child is handed the first [numlines / 2] (rounded
    down) and the second child the ones after them, [numlines / 2] rounded
    up; within each half and across the two the lines keep their order. *)
Theorem C2_split_halves (numlines : Z) (lines : list string) :
  2 <= numlines -> numlines <= Z.of_nat (List.length lines) ->
  let ingested := firstn (Z.to_nat numlines) lines in
  let halves := split numlines lines in
  fst (fst halves) = firstn (Z.to_nat (numlines / 2)) ingested /\
  fst (snd halves) = skipn (Z.to_nat (numlines / 2)) ingested /\
  fst (fst halves) ++ fst (snd halves) = ingested /\
  snd (fst halves) = numlines / 2 /\
  snd (snd halves) = (numlines + 1) / 2 /\
  snd (fst halves) + snd (snd halves) = numlines.
Proof.
  intros H2 Hlen. cbv zeta. unfold split, cells_between. cbn [fst snd].
  rewrite Z.quot_div_nonneg by lia.
  assert (Hh : 0 <= numlines / 2 <= numlines).
  { split; [apply Z.div_pos; lia|]. apply Z.div_le_upper_bound; lia. }
  assert (Hup : (numlines + 1) / 2 = numlines - numlines / 2).
  { pose proof (Z.div_mod numlines 2 ltac:(lia)).
    pose proof (Z.div_mod (numlines + 1) 2 ltac:(lia)).
    pose proof (Z.mod_pos_bound numlines 2 ltac:(lia)).
    pose proof (Z.mod_pos_bound (numlines + 1) 2 ltac:(lia)). lia. }
  rewrite Z.sub_0_r. cbn [Z.to_nat skipn].
  assert (L1 : List.length (firstn (Z.to_nat (numlines / 2)) lines)
               = Z.to_nat (numlines / 2)) by (rewrite firstn_length_le; lia).
  rewrite L1, Z2Nat.id, Z2Nat.inj_sub by lia.
  assert (E1 : firstn (Z.to_nat (numlines / 2)) lines
               = firstn (Z.to_nat (numlines / 2))
                        (firstn (Z.to_nat numlines) lines)).
  { rewrite firstn_firstn. f_equal. lia. }
  assert (E2 : firstn (Z.to_nat numlines - Z.to_nat (numlines / 2))
                      (skipn (Z.to_nat (numlines / 2)) lines)
               = skipn (Z.to_nat (numlines / 2))
                       (firstn (Z.to_nat numlines) lines)).
  { now rewrite skipn_firstn_comm. }
  rewrite E2, E1.
  split; [reflexivity|]. split; [reflexivity|].
  split; [apply firstn_skipn|]. split; [reflexivity|].
  assert (L2 : Z.of_nat (List.length (skipn (Z.to_nat (numlines / 2))
                                           (firstn (Z.to_nat numlines) lines)))
               = numlines - numlines / 2).
  { rewrite length_skipn, firstn_length_le by lia. lia. }
  rewrite L2. lia.
Qed.

Lemma C2_witness :
  let halves := split 3 ["a"; "b"; "c"; ""] in
  fst (fst halves) = ["a"] /\ fst (snd halves) = ["b"; "c"] /\
  snd (fst halves) + snd (snd halves) = 3.
Proof.
  destruct (C2_split_halves 3 ["a"; "b"; "c"; ""]) as (H1 & H2 & _ & _ & _ & H6);
    [lia|simpl; lia|].
  cbv zeta. split; [exact H1|]. split; [exact H2|exact H6].
Defined.

(** C3 fails on the code.  With no line read [main] takes neither the
    one-line exit nor any other: it hands no line to each of two children,
    which do the same in turn, so the process never comes to an end,
    whatever the fuel.  And were the two children to end, [mergesort] with
    both counts 0 skips its loop, finds nothing held and exits with
    [EXIT_FAILURE]. *)
Theorem C3_empty_input_does_not_succeed :
  (forall fuel w, main fuel EmptyString w = Fuel) /\
  (forall w,
      mergesort EmptyString EmptyString 0 0 w
      = Exit EXIT_FAILURE
             (with_err w ("lock cannot be 0 or > 2" ++ String nl "")%string)).
Proof. split; [intros; apply main_empty|reflexivity]. Qed.

(** C4 fails on the code where the input is one line without a
    terminator: the one-line exit of [main] writes the line as it was read,
    not through [print], and what comes out has no line feed. *)
Theorem C4_single_line_not_terminated :
  main 1 "a" io0 = Exit EXIT_SUCCESS (mkIO ["a"] []) /\
  last_byte "a" <> Some nl /\
  print "a" io0 = Ret "a" (mkIO [terminated "a"] []).
Proof.
  split; [vm_compute; reflexivity|]. split; [discriminate|reflexivity].
Qed.

(** C5. With both counts 1 [mergesort] takes its special case (read a
    line of each side, compare once, write the two in order, exit with
    success), and the special case ends the process in the same way as the
    general path (loop, held line, remaining lines, and the
    [exit(EXIT_SUCCESS)] that follows the call in [main]) run with counts 1
    and 1 on the same two streams: same lines written, same diagnostics,
    same exit status. *)
Theorem C5_trivial_case_is_general_loop (f1 f2 : FILE) (w : io) :
  mergesort f1 f2 1 1 w = merge_trivial f1 f2 w /\
  merge_trivial f1 f2 w
  = (merge_general f1 f2 1 1 ;;; exit EXIT_SUCCESS) w.
Proof.
  split.
  - unfold mergesort. reflexivity.
  - apply merge_trivial_general.
Qed.

(** C6. When the merge loop of [mergesort] has come to its end, [lock]
    is 1 or 2: one side's counter has reached its total, and the line held
    is the first line not yet written of the other side, whose counter is
    still below its total.  The [switch] after the loop therefore writes
    that line and does not reach [error_exit]. *)
Theorem C6_lock_held_at_loop_exit (f1 f2 : FILE) (c1 c2 : Z) (w : io)
        (st' : locals) (w' : io) :
  1 <= c1 -> 1 <= c2 -> ~ (c1 = 1 /\ c2 = 1) ->
  loop (loop_fuel f1 f2) c1 c2 (init_locals f1 f2) w = Ret st' w' ->
  ((lock st' = 1 /\ processed_c2 st' = c2 /\ processed_c1 st' < c1 /\
    nth_error (lines_of f1) (Z.to_nat (processed_c1 st')) = Some (left st'))
   \/ (lock st' = 2 /\ processed_c1 st' = c1 /\ processed_c2 st' < c2 /\
       nth_error (lines_of f2) (Z.to_nat (processed_c2 st'))
       = Some (right st')))
  /\ exists st2 x, flush_lock st' w' = Ret st2 (with_out w' x).
Proof.
  intros Hc1 Hc2 _ Hloop.
  destruct (loop_from_init0 f1 f2 c1 c2 w Hc1 Hc2)
    as [(n & E & st & w1 & Hr & Hinv & Hg & Hl & _)|(E & w1 & Hr & _)];
    [|congruence].
  assert (st = st' /\ w1 = w') as [-> ->] by (split; congruence).
  split.
  - eapply loop_exit_held; eauto.
  - eapply loop_exit_flush; eauto.
Qed.

Lemma C6_witness :
  exists st' w',
    loop (loop_fuel (text ["AN"; "HE"]) (text ["DO"; "HU"; "TH"])) 2 3
         (init_locals (text ["AN"; "HE"]) (text ["DO"; "HU"; "TH"])) io0
    = Ret st' w' /\
    lock st' = 2 /\ right st' = text ["HU"] /\
    exists st2 x, flush_lock st' w' = Ret st2 (with_out w' x).
Proof.
  eexists. eexists. split; [vm_compute; reflexivity|].
  split; [reflexivity|]. split; [reflexivity|].
  apply (C6_lock_held_at_loop_exit (text ["AN"; "HE"]) (text ["DO"; "HU"; "TH"])
                                   2 3 io0); [lia|lia|lia|].
  vm_compute. reflexivity.
Defined.



(** C8. The example of the source: the left stream AN, HE with count 2
    and the right stream DO, HU, TH with count 3 come out as AN, DO, HE, HU,
    TH, and [mergesort] returns. *)
Theorem C8_example_merge :
  mergesort (text ["AN"; "HE"]) (text ["DO"; "HU"; "TH"]) 2 3 io0
  = Ret tt (mkIO (map terminated ["AN"; "DO"; "HE"; "HU"; "TH"]) []).
Proof. vm_compute. reflexivity. Qed.

(** C9 fails on the code.  After ten lines the ten cells of the block are
    full and [numlines] is [arrlen]; the eleventh line is stored at index
    10 of these ten cells, and only then is [numlines == arrlen] tested and
    the block grown. *)
Theorem C9_store_at_capacity :
  let ten := ["1"; "2"; "3"; "4"; "5"; "6"; "7"; "8"; "9"; "10"] in
  ingest (text ten) io0 = Ret (10, map terminated ten) io0 /\
  store (map terminated ten) 10 (terminated "11") io0 = Undef /\
  ingest (text (ten ++ ["11"])) io0 = Undef.
Proof. cbv zeta. repeat split; vm_compute; reflexivity. Qed.



(** * The program as a whole *)

(** ** Lines cut and put together again *)

Lemma append_assoc_nl c rest :
  ((c ++ String nl "") ++ rest)%string = (c ++ String nl rest)%string.
Proof. induction c as [|a c IH]; simpl; [reflexivity|now rewrite IH]. Qed.

Lemma append_nil_r s : (s ++ "")%string = s.
Proof. induction s as [|a s IH]; simpl; [reflexivity|now rewrite IH]. Qed.

Lemma append_assoc a b c : ((a ++ b) ++ c)%string = (a ++ (b ++ c))%string.
Proof. induction a as [|x a IH]; simpl; [reflexivity|now rewrite IH]. Qed.

Lemma lines_of_terminated c rest :
  nl_free c ->
  lines_of (c ++ String nl rest) = terminated c :: lines_of rest.
Proof.
  induction c as [|a c IH]; intro H.
  - reflexivity.
  - destruct H as [Ha Hc]. apply Ascii.eqb_neq in Ha.
    change ((String a c ++ String nl rest)%string)
      with (String a (c ++ String nl rest)).
    cbn [lines_of]. rewrite Ha, (IH Hc). reflexivity.
Qed.

Lemma lines_of_open l : open_line l -> lines_of l = [l].
Proof.
  intros [H Hne]. induction l as [|a l IH]; [congruence|].
  destruct H as [Ha Hl]. apply Ascii.eqb_neq in Ha.
  cbn [lines_of]. rewrite Ha. destruct l as [|b l]; [reflexivity|].
  rewrite IH by (auto; discriminate). reflexivity.
Qed.

Lemma feed_cons l l' ls : feed (l :: l' :: ls) = (l ++ feed (l' :: ls))%string.
Proof. reflexivity. Qed.

(** Lines written one after the other are read back as they were. *)
Lemma lines_of_feed ls : line_seq ls -> lines_of (feed ls) = ls.
Proof.
  induction ls as [|l rest IH]; [reflexivity|].
  destruct rest as [|l' rest].
  - intros [(c & Hc & ->)|H].
    + unfold feed, terminated. cbn [String.concat].
      now rewrite lines_of_terminated.
    + now apply lines_of_open.
  - intros [(c & Hc & ->) Hrest]. rewrite feed_cons.
    unfold terminated at 1. rewrite append_assoc_nl.
    rewrite lines_of_terminated by assumption. now rewrite IH.
Qed.

Lemma terminated_line_cons a l :
  a <> nl -> terminated_line l -> terminated_line (String a l).
Proof.
  intros Ha (c & Hc & ->). exists (String a c). split; [now split|reflexivity].
Qed.

Lemma open_line_cons a l : a <> nl -> nl_free l -> open_line (String a l).
Proof. intros Ha Hl. split; [now split|discriminate]. Qed.

(** What [getline] cuts a stream into. *)
Lemma line_seq_lines_of f : line_seq (lines_of f).
Proof.
  induction f as [|a f IH]; [exact I|].
  cbn [lines_of]. destruct (Ascii.eqb a nl) eqn:E.
  - apply Ascii.eqb_eq in E. subst.
    assert (T : terminated_line (String nl "")) by (now exists EmptyString).
    cbn [line_seq]. destruct (lines_of f); [now left|now split].
  - apply Ascii.eqb_neq in E. destruct (lines_of f) as [|l ls].
    + right. apply open_line_cons; [assumption|exact I].
    + cbn [line_seq] in *. destruct ls as [|l' ls].
      * destruct IH as [IH|[IH _]];
          [left; now apply terminated_line_cons|right; now apply open_line_cons].
      * destruct IH as [IH Hrest]. split; [|assumption].
        now apply terminated_line_cons.
Qed.

Lemma line_seq_tail l ls : line_seq (l :: ls) -> line_seq ls.
Proof. destruct ls; [intros; exact I|now intros [_ H]]. Qed.

Lemma line_seq_skipn n : forall ls, line_seq ls -> line_seq (skipn n ls).
Proof.
  induction n as [|n IH]; intros [|l ls] H; try assumption.
  apply IH. eapply line_seq_tail; eauto.
Qed.

Lemma line_seq_firstn n : forall ls, line_seq ls -> line_seq (firstn n ls).
Proof.
  induction n as [|n IH]; intros [|l ls] H; try exact I.
  cbn [firstn]. destruct ls as [|l' ls].
  - now destruct n.
  - destruct H as [Hl Hrest]. specialize (IH _ Hrest).
    destruct n as [|n]; [now left|]. cbn [firstn] in *. now split.
Qed.

Lemma line_seq_each ls :
  line_seq ls -> Forall (fun l => terminated_line l \/ open_line l) ls.
Proof.
  induction ls as [|l ls IH]; [constructor|].
  intro H. pose proof (line_seq_tail _ _ H) as Ht.
  constructor; [|now apply IH].
  destruct ls; [exact H|left; now destruct H].
Qed.

Lemma feed_app l1 : forall l2, feed (l1 ++ l2) = (feed l1 ++ feed l2)%string.
Proof.
  induction l1 as [|a l1 IH]; intro l2; [reflexivity|].
  destruct l1 as [|b l1].
  - destruct l2 as [|c l2]; [symmetry; apply append_nil_r|reflexivity].
  - change ((a :: b :: l1) ++ l2) with (a :: b :: (l1 ++ l2)).
    rewrite !feed_cons, append_assoc. f_equal. apply (IH l2).
Qed.

Lemma feed_String a l ls : feed (String a l :: ls) = String a (feed (l :: ls)).
Proof. destruct ls; reflexivity. Qed.

(** A stream cut into its lines and put together again is the stream. *)
Lemma feed_lines_of f : feed (lines_of f) = f.
Proof.
  induction f as [|a f IH]; [reflexivity|].
  cbn [lines_of]. destruct (Ascii.eqb a nl).
  - destruct (lines_of f) as [|l ls] eqn:E.
    + apply lines_of_nil in E. destruct f; [reflexivity|discriminate].
    + rewrite feed_cons, IH. reflexivity.
  - destruct (lines_of f) as [|l ls] eqn:E.
    + apply lines_of_nil in E. destruct f; [reflexivity|discriminate].
    + rewrite feed_String, IH. reflexivity.
Qed.


(** ** Contents and low bytes of lines *)

Lemma last_byte_terminated c : last_byte (terminated c) = Some nl.
Proof.
  induction c as [|a c IH]; [reflexivity|].
  change (terminated (String a c)) with (String a (terminated c)).
  cbn [last_byte]. destruct (terminated c) eqn:E; [discriminate|exact IH].
Qed.

Lemma drop_last_terminated c : drop_last (terminated c) = c.
Proof.
  induction c as [|a c IH]; [reflexivity|].
  change (terminated (String a c)) with (String a (terminated c)).
  cbn [drop_last]. destruct (terminated c) eqn:E; [|now rewrite IH].
  destruct c; discriminate.
Qed.

(** [print] takes the terminator off a terminated line. *)
Lemma content_terminated c : content (terminated c) = c.
Proof.
  unfold content. rewrite last_byte_terminated, Ascii.eqb_refl.
  apply drop_last_terminated.
Qed.

Lemma last_byte_open l :
  nl_free l -> l <> EmptyString -> exists d, last_byte l = Some d /\ d <> nl.
Proof.
  induction l as [|a l IH]; [congruence|]. intros [Ha Hl] _.
  destruct l as [|b l]; [now exists a|]. apply IH; [assumption|discriminate].
Qed.

(** [print] leaves a line without terminator as it is. *)
Lemma content_open l : open_line l -> content l = l.
Proof.
  intros [H Hne]. destruct (last_byte_open l H Hne) as (d & Hd & Hnl).
  unfold content. rewrite Hd. apply Ascii.eqb_neq in Hnl. now rewrite Hnl.
Qed.

Lemma content_nl_free l :
  terminated_line l \/ open_line l -> nl_free (content l).
Proof.
  intros [(c & Hc & ->)|H].
  - now rewrite content_terminated.
  - rewrite content_open by assumption. apply H.
Qed.

Lemma printed_terminated_line l :
  terminated_line l \/ open_line l -> terminated_line (printed l).
Proof. intro H. exists (content l). split; [now apply content_nl_free|reflexivity]. Qed.

Lemma line_seq_terminated ls :
  Forall terminated_line ls -> line_seq ls.
Proof.
  induction 1 as [|l ls Hl _ IH]; [exact I|].
  cbn [line_seq]. destruct ls; [now left|now split].
Qed.

Lemma low_free_app a b : low_free (a ++ b) <-> low_free a /\ low_free b.
Proof.
  induction a as [|x a IH]; simpl; [tauto|]. rewrite IH. tauto.
Qed.

Lemma low_free_feed ls : low_free (feed ls) <-> Forall low_free ls.
Proof.
  induction ls as [|l ls IH].
  - split; [constructor|intros; exact I].
  - destruct ls as [|l' ls].
    + split; [intro H; now repeat constructor|intro H; now inversion H].
    + rewrite feed_cons, low_free_app, IH. split.
      * intros [H1 H2]. now constructor.
      * intro H. now inversion H.
Qed.

Lemma low_free_lines f : low_free f -> Forall low_free (lines_of f).
Proof. intro H. apply low_free_feed. now rewrite feed_lines_of. Qed.

Lemma low_free_drop_last l : low_free l -> low_free (drop_last l).
Proof.
  induction l as [|a l IH]; [auto|]. intros [Ha Hl].
  cbn [drop_last]. destruct l; [exact I|]. split; [assumption|now apply IH].
Qed.

Lemma low_free_content l : low_free l -> low_free (content l).
Proof.
  intro H. unfold content. destruct (last_byte l) as [d|]; [|assumption].
  destruct (Ascii.eqb d nl); [now apply low_free_drop_last|assumption].
Qed.

Lemma low_free_printed l : low_free l -> low_free (printed l).
Proof.
  intro H. unfold printed. apply low_free_app.
  split; [now apply low_free_content|]. simpl. unfold byte. simpl. lia.
Qed.

(** ** One level of the tree of processes *)

(** A child that has no more to write than its pipe holds comes to its
    end, and the parent reads what it wrote. *)
Lemma wait_exit status wc w :
  Z.of_nat (String.length (feed (stdout wc))) <= PIPE_CAPACITY ->
  wait (Exit status wc) w
  = Ret (status, feed (stdout wc)) (mkIO (stdout w) (stderr w ++ stderr wc)).
Proof.
  intro H. unfold wait. apply Z.leb_le in H. now rewrite H.
Qed.

(** ** The bytes a process writes *)

Lemma length_append a b :
  String.length (a ++ b) = (String.length a + String.length b)%nat.
Proof. induction a as [|x a IH]; simpl; [reflexivity|now rewrite IH]. Qed.

Lemma length_drop_last l :
  (String.length l <= S (String.length (drop_last l)))%nat.
Proof.
  induction l as [|a l IH]; [simpl; lia|].
  cbn [drop_last]. destruct l as [|b l]; [simpl; lia|].
  cbn [String.length] in *. lia.
Qed.

Lemma length_content l :
  (String.length l <= S (String.length (content l)))%nat.
Proof.
  unfold content. destruct (last_byte l) as [c|]; [|lia].
  destruct (Ascii.eqb c nl); [apply length_drop_last|lia].
Qed.

Lemma bytes_of_app a b : bytes_of (a ++ b) = (bytes_of a + bytes_of b)%nat.
Proof. induction a as [|x a IH]; simpl; [reflexivity|rewrite IH; lia]. Qed.

Lemma bytes_of_perm a b : Permutation a b -> bytes_of a = bytes_of b.
Proof. induction 1; simpl; lia. Qed.

(** What is written for some lines is no more than their contents with a
    line feed each. *)
Lemma length_feed ls :
  (String.length (feed ls) <= bytes_of (map content ls))%nat.
Proof.
  induction ls as [|l ls IH]; [simpl; lia|].
  change (l :: ls) with ([l] ++ ls). rewrite feed_app, length_append.
  change (feed [l]) with l. cbn [app map bytes_of].
  pose proof (length_content l). lia.
Qed.

(** What [main] hands to its children, in lines. *)
Lemma split_lines (N : nat) (block L : list string) :
  firstn N block = L -> List.length L = N ->
  split (Z.of_nat N) block
  = ((firstn (N / 2) L, Z.of_nat (N / 2)),
     (skipn (N / 2) L, Z.of_nat (N - N / 2))).
Proof.
  intros HL Hlen.
  assert (Hb : (N <= List.length block)%nat).
  { rewrite <- HL, length_firstn in Hlen. lia. }
  assert (Hk : (N / 2 <= N)%nat) by (apply Nat.Div0.div_le_upper_bound; lia).
  unfold split, cells_between.
  rewrite Z.quot_div_nonneg by lia.
  change 2 with (Z.of_nat 2). rewrite <- Nat2Z.inj_div.
  rewrite Z.sub_0_r, Nat2Z.id. cbn [Z.to_nat skipn].
  assert (E1 : firstn (N / 2) block = firstn (N / 2) L).
  { rewrite <- HL, firstn_firstn. f_equal. lia. }
  rewrite E1.
  assert (L1 : List.length (firstn (N / 2) L) = (N / 2)%nat)
    by (rewrite length_firstn; lia).
  rewrite L1, <- Nat2Z.inj_sub, !Nat2Z.id by assumption.
  assert (E2 : firstn (N - N / 2) (skipn (N / 2) block) = skipn (N / 2) L).
  { rewrite <- HL. symmetry. apply skipn_firstn_comm. }
  rewrite E2.
  assert (L2 : List.length (skipn (N / 2) L) = (N - N / 2)%nat)
    by (rewrite length_skipn; lia).
  now rewrite L2.
Qed.

(** [main] on two lines or more, once the input is read. *)
Lemma main_unfold fuel input w N block :
  ingest input w = Ret (Z.of_nat N, block) w -> N <> 1%nat ->
  main (S fuel) input w
  = (let halves := split (Z.of_nat N) block in
     child1 <- wait (fork (main fuel (feed (fst (fst halves))))) ;;
     (if negb (fst child1 =? EXIT_SUCCESS)
      then error_exit "Error occured during waiting for child: pid1"
      else ret tt) ;;;
     child2 <- wait (fork (main fuel (feed (fst (snd halves))))) ;;
     (if negb (fst child2 =? EXIT_SUCCESS)
      then error_exit "Error occured during waiting for child: pid2"
      else ret tt) ;;;
     mergesort (snd child1) (snd child2) (snd (fst halves)) (snd (snd halves)) ;;;
     exit EXIT_SUCCESS) w.
Proof.
  intros Hi Hn. cbn [main]. rewrite (bind_ret _ _ _ _ _ Hi). cbn [fst snd].
  destruct (Z.eqb_spec (Z.of_nat N) 1) as [He|_]; [lia|]. reflexivity.
Qed.

(** ** The tree of processes on up to [STEPSIZE] lines *)

Lemma content_printed l : content (printed l) = content l.
Proof. unfold printed. apply (content_terminated (content l)). Qed.

Lemma map_content_printed E : map content (map printed E) = map content E.
Proof.
  rewrite map_map. apply map_ext. intro. apply content_printed.
Qed.

Lemma half_bounds N : (2 <= N)%nat -> (1 <= N / 2 /\ N / 2 < N)%nat.
Proof.
  intro H. split.
  - apply Nat.div_le_lower_bound; lia.
  - apply Nat.div_lt; lia.
Qed.

Section Tree.

(** What the lines are ordered by, and the lines on which [strcmp] decides
    that order; [print] keeps both. *)
Variable key : string -> string.
Variable P : string -> Prop.
Hypothesis cmp_lt :
  forall a b, P a -> P b -> strcmp a b < 0 -> line_le (key a) (key b).
Hypothesis cmp_ge :
  forall a b, P a -> P b -> ~ strcmp a b < 0 -> line_le (key b) (key a).
Hypothesis P_printed : forall l, P l -> P (printed l).
Hypothesis key_printed : forall l, P l -> key (printed l) = key l.

(** What a process of the tree writes: the lines it was given, each on a
    line of its own, in non-decreasing order of their keys. *)
Lemma main_sorts_lines fuel : forall input w,
  Forall P (lines_of input) ->
  (1 <= List.length (lines_of input) <= 10)%nat ->
  (List.length (lines_of input) <= fuel)%nat ->
  Z.of_nat (bytes_of (contents input)) <= PIPE_CAPACITY ->
  exists chunks,
    main fuel input w
    = Exit EXIT_SUCCESS (mkIO (stdout w ++ chunks) (stderr w)) /\
    line_seq chunks /\ Forall P chunks /\
    List.length chunks = List.length (lines_of input) /\
    Permutation (map key chunks) (map key (lines_of input)) /\
    StronglySorted line_le (map key chunks) /\
    ((2 <= List.length (lines_of input))%nat ->
     chunks = map printed chunks) /\
    Permutation (map content chunks) (contents input).
Proof.
  induction fuel as [|fuel IH]; intros input w HP HN Hfuel Hcap; [lia|].
  unfold contents in *.
  remember (lines_of input) as L eqn:HL.
  pose proof (line_seq_lines_of input) as Hseq. rewrite <- HL in Hseq.
  destruct (Nat.eq_dec (List.length L) 1) as [H1|H1].
  - (* one line *)
    destruct L as [|l [|l' L]]; try discriminate.
    exists [l]. rewrite (main_single_line fuel input l w (eq_sym HL)).
    split; [reflexivity|]. split; [assumption|]. split; [assumption|].
    split; [reflexivity|]. split; [apply Permutation_refl|].
    split; [repeat constructor|]. split; [simpl; lia|apply Permutation_refl].
  - (* two lines or more *)
    set (N := List.length L) in *.
    assert (HN2 : (2 <= N)%nat) by lia.
    destruct (half_bounds N HN2) as [Hk1 Hk2].
    destruct (ingest_ok input w) as (block & Hi & Hf);
      [rewrite <- HL; fold N; lia|].
    rewrite <- HL in Hi, Hf. fold N in Hi, Hf.
    rewrite (main_unfold fuel input w N block Hi H1).
    rewrite (split_lines N block L Hf eq_refl). cbv zeta. cbn [fst snd].
    set (h1 := firstn (N / 2) L). set (h2 := skipn (N / 2) L).
    assert (Hh : L = h1 ++ h2) by (symmetry; apply firstn_skipn).
    assert (Hlen1 : List.length h1 = (N / 2)%nat)
      by (unfold h1; rewrite length_firstn; fold N; lia).
    assert (Hlen2 : List.length h2 = (N - N / 2)%nat)
      by (unfold h2; rewrite length_skipn; reflexivity).
    assert (Hl1 : lines_of (feed h1) = h1)
      by (apply lines_of_feed, line_seq_firstn, Hseq).
    assert (Hl2 : lines_of (feed h2) = h2)
      by (apply lines_of_feed, line_seq_skipn, Hseq).
    pose proof HP as HP'. rewrite Hh, Forall_app in HP'.
    destruct HP' as [HP1 HP2].
    assert (Hbytes : bytes_of (map content L)
                     = (bytes_of (map content h1)
                        + bytes_of (map content h2))%nat)
      by (now rewrite Hh, map_app, bytes_of_app).
    destruct (IH (feed h1) io0)
      as (ch1 & Hm1 & Hs1 & Hf1 & Hn1 & Hp1 & Ho1 & _ & Hc1);
      [now rewrite Hl1|rewrite Hl1; lia|rewrite Hl1; lia
      |unfold contents; rewrite Hl1; lia|].
    destruct (IH (feed h2) io0)
      as (ch2 & Hm2 & Hs2 & Hf2 & Hn2 & Hp2 & Ho2 & _ & Hc2);
      [now rewrite Hl2|rewrite Hl2; lia|rewrite Hl2; lia
      |unfold contents; rewrite Hl2; lia|].
    unfold contents in Hc1, Hc2.
    rewrite Hl1 in Hn1, Hp1, Hc1. rewrite Hl2 in Hn2, Hp2, Hc2.
    assert (Hfit1 : Z.of_nat (String.length (feed ch1)) <= PIPE_CAPACITY).
    { pose proof (length_feed ch1) as Hle.
      rewrite (bytes_of_perm _ _ Hc1) in Hle. lia. }
    assert (Hfit2 : Z.of_nat (String.length (feed ch2)) <= PIPE_CAPACITY).
    { pose proof (length_feed ch2) as Hle.
      rewrite (bytes_of_perm _ _ Hc2) in Hle. lia. }
    unfold fork. rewrite Hm1, Hm2. cbn [stdout stderr io0 app].
    rewrite (bind_ret _ _ _ _ _ (wait_exit _ (mkIO ch1 []) w Hfit1)).
    cbn [fst snd stdout stderr]. change (EXIT_SUCCESS =? EXIT_SUCCESS) with true.
    cbn [negb]. rewrite (bind_ret _ _ _ _ _ (eq_refl : ret tt _ = Ret tt _)).
    rewrite (bind_ret _ _ _ _ _ (wait_exit _ (mkIO ch2 []) _ Hfit2)).
    cbn [fst snd stdout stderr]. change (EXIT_SUCCESS =? EXIT_SUCCESS) with true.
    cbn [negb]. rewrite (bind_ret _ _ _ _ _ (eq_refl : ret tt _ = Ret tt _)).
    rewrite !app_nil_r.
    assert (Hw : mkIO (stdout w) (stderr w) = w) by (now destruct w).
    rewrite Hw.
    destruct (mergesort_exact
                (fun a b => line_le (key a) (key b)) P
                (fun a b c => strcmp_le_trans (key a) (key b) (key c))
                cmp_lt cmp_ge
                (feed ch1) (feed ch2) (Z.of_nat (N / 2)) (Z.of_nat (N - N / 2)) w)
      as (E & w' & Hend & Hout & Herr & Hperm & Hsort).
    { now rewrite (lines_of_feed ch1 Hs1). }
    { now rewrite (lines_of_feed ch2 Hs2). }
    { rewrite (lines_of_feed ch1 Hs1). now apply StronglySorted_map. }
    { rewrite (lines_of_feed ch2 Hs2). now apply StronglySorted_map. }
    { lia. }
    { lia. }
    { split; [rewrite (lines_of_feed ch1 Hs1)|rewrite (lines_of_feed ch2 Hs2)];
        lia. }
    rewrite (lines_of_feed ch1 Hs1), (lines_of_feed ch2 Hs2) in Hperm.
    exists (map printed E). split.
    { destruct Hend as [Hend|Hend].
      - rewrite (bind_ret _ _ _ _ _ Hend). unfold exit.
        destruct w'. cbn in Hout, Herr. now subst.
      - rewrite (bind_exit _ _ _ _ _ Hend).
        destruct w'. cbn in Hout, Herr. now subst. }
    assert (Hshape : Forall (fun l => terminated_line l \/ open_line l) E).
    { apply (Permutation_Forall (Permutation_sym Hperm)).
      apply Forall_app. split; now apply line_seq_each. }
    assert (HPE : Forall P E).
    { apply (Permutation_Forall (Permutation_sym Hperm)).
      apply Forall_app. now split. }
    assert (Hkey : map key (map printed E) = map key E).
    { rewrite map_map. apply map_ext_in. intros e He.
      rewrite Forall_forall in HPE. now apply key_printed, HPE. }
    split; [|split; [|split; [|split; [|split; [|split]]]]].
    + apply line_seq_terminated, Forall_map.
      eapply Forall_impl; [|exact Hshape]. apply printed_terminated_line.
    + apply Forall_map. eapply Forall_impl; [|exact HPE]. apply P_printed.
    + rewrite length_map, (Permutation_length Hperm), length_app. fold N. lia.
    + rewrite Hkey.
      rewrite (Permutation_map key Hperm), map_app, Hp1, Hp2, <- map_app.
      now rewrite <- Hh.
    + rewrite Hkey.
      exact (proj1 (StronglySorted_map key line_le E) Hsort).
    + intros _. rewrite map_map. apply map_ext_in. intros e _.
      unfold printed at 2. now rewrite content_printed.
    + rewrite map_content_printed.
      rewrite (Permutation_map content Hperm), map_app, Hc1, Hc2, <- map_app.
      now rewrite <- Hh.
Qed.

End Tree.

(** * [mergesort] on any streams and counts *)

(** ** No buffer is printed before a line was read into it *)






Lemma print_undef l w : last_byte l <> None -> print l w <> Undef.
Proof. intro H. now rewrite (print_ok l w H). Qed.







(** ** A count of zero *)

Lemma merge_general_zero f1 f2 c1 c2 w :
  c1 = 0 \/ c2 = 0 ->
  merge_general f1 f2 c1 c2 w
  = Exit EXIT_FAILURE
         (with_err w ("lock cannot be 0 or > 2" ++ String nl "")%string).
Proof.
  intro H. unfold merge_general.
  assert (Hg : loop_guard c1 c2 (init_locals f1 f2) = false).
  { unfold loop_guard, init_locals. cbn [processed_c1 processed_c2].
    destruct H as [-> | ->]; cbn; [reflexivity|apply andb_false_r]. }
  now rewrite (bind_ret _ _ _ _ _ (loop_done _ c1 c2 _ w Hg)).
Qed.

(** ** A sorted list has one order *)

Lemma line_le_refl a : line_le a a.
Proof. unfold line_le, strcmp. now rewrite string_compare_refl. Qed.

Lemma line_le_antisym a b : line_le a b -> line_le b a -> a = b.
Proof.
  unfold line_le. rewrite !strcmp_le_iff, (String.compare_antisym a b).
  intros H1 H2. apply String.compare_eq_iff.
  rewrite String.compare_antisym.
  destruct (String.compare b a); simpl in *; congruence.
Qed.

Lemma sorted_permutation_eq l1 : forall l2,
  StronglySorted line_le l1 -> StronglySorted line_le l2 ->
  Permutation l1 l2 -> l1 = l2.
Proof.
  induction l1 as [|a l1 IH]; intros l2 S1 S2 HP.
  - apply Permutation_nil in HP. now subst.
  - destruct l2 as [|b l2]; [now apply Permutation_sym, Permutation_nil in HP|].
    apply StronglySorted_inv in S1, S2.
    destruct S1 as [S1 Ha], S2 as [S2 Hb].
    rewrite Forall_forall in Ha, Hb.
    assert (Hab : line_le a b).
    { assert (Hin : In b (a :: l1))
        by (apply (Permutation_in b (Permutation_sym HP)); now left).
      destruct Hin as [->|Hin]; [apply line_le_refl|now apply Ha]. }
    assert (Hba : line_le b a).
    { assert (Hin : In a (b :: l2))
        by (apply (Permutation_in a HP); now left).
      destruct Hin as [->|Hin]; [apply line_le_refl|now apply Hb]. }
    pose proof (line_le_antisym a b Hab Hba) as ->.
    f_equal. apply IH; try assumption. eapply Permutation_cons_inv; eauto.
Qed.

(** * Further properties *)

(** ** The two orders of the tree of processes *)

Lemma printed_terminated l : terminated_line l -> printed l = l.
Proof.
  intros (c & _ & ->). unfold printed. now rewrite content_terminated.
Qed.

Lemma above_printed l : above_nl (content l) -> above_nl (content (printed l)).
Proof. now rewrite content_printed. Qed.

(** The tree of processes in the order of the contents. *)
Lemma main_content_order fuel input w :
  low_free input ->
  (1 <= List.length (lines_of input) <= 10)%nat ->
  (List.length (lines_of input) <= fuel)%nat ->
  Z.of_nat (bytes_of (contents input)) <= PIPE_CAPACITY ->
  exists chunks,
    main fuel input w
    = Exit EXIT_SUCCESS (mkIO (stdout w ++ chunks) (stderr w)) /\
    line_seq chunks /\ Forall (fun l => above_nl (content l)) chunks /\
    List.length chunks = List.length (lines_of input) /\
    Permutation (map content chunks) (contents input) /\
    StronglySorted line_le (map content chunks) /\
    ((2 <= List.length (lines_of input))%nat ->
     chunks = map printed chunks).
Proof.
  intros Hlow HN Hfuel Hcap.
  destruct (main_sorts_lines content (fun l => above_nl (content l))
              cmp_content_lt cmp_content_ge above_printed
              (fun l _ => content_printed l) fuel input w
              (lines_of_above input Hlow) HN Hfuel Hcap)
    as (chunks & H1 & H2 & H3 & H4 & H5 & H6 & H7 & _).
  exists chunks. repeat (split; [assumption|]). assumption.
Qed.

(** The tree of processes in the order of the lines as they are read. *)
Lemma main_raw_order fuel input w :
  Forall terminated_line (lines_of input) ->
  (1 <= List.length (lines_of input) <= 10)%nat ->
  (List.length (lines_of input) <= fuel)%nat ->
  Z.of_nat (bytes_of (contents input)) <= PIPE_CAPACITY ->
  exists chunks,
    main fuel input w
    = Exit EXIT_SUCCESS (mkIO (stdout w ++ chunks) (stderr w)) /\
    Permutation chunks (lines_of input) /\
    StronglySorted raw_le chunks.
Proof.
  intros HP HN Hfuel Hcap.
  destruct (main_sorts_lines (fun l => l) terminated_line
              (fun a b _ _ => strcmp_lt_le a b)
              (fun a b _ _ => strcmp_ge_le a b)
              (fun l H => printed_terminated_line l (or_introl H))
              printed_terminated fuel input w HP HN Hfuel Hcap)
    as (chunks & Hm & _ & _ & _ & Hp & Hs & _).
  rewrite !map_id in *. now exists chunks.
Qed.

Lemma terminated_printed chunks :
  chunks = map printed chunks -> chunks = map terminated (map content chunks).
Proof. intro H. rewrite map_map. exact H. Qed.

(** ** The program as it is started *)

Lemma program_no_argument pgm_name fuel input :
  program 1 pgm_name fuel input = main fuel input.
Proof. reflexivity. Qed.

Lemma program_usage argc pgm_name fuel input w :
  argc <> 1 ->
  program argc pgm_name fuel input w
  = Exit EXIT_FAILURE
         (with_err w ("USAGE: " ++ pgm_name ++ String nl "")%string).
Proof.
  intro H. unfold program. destruct (Z.eqb_spec argc 1); [contradiction|].
  reflexivity.
Qed.

(** ** Entries *)

(** X1. [mergesort] merges in the order of [strcmp] on the lines as they
    are read, whatever their bytes but NUL: of two streams without a NUL
    byte that hold the numbers of lines promised (at least one each), each
    in non-decreasing order of [strcmp] on its lines, terminators included,
    the lines are written in that order, every line once, and the error
    stream is left alone. *)
Theorem X1_merge_in_strcmp_order (f1 f2 : FILE) (c1 c2 : Z) (w : io) :
  no_nul f1 -> no_nul f2 ->
  1 <= c1 -> 1 <= c2 ->
  Z.of_nat (List.length (lines_of f1)) = c1 ->
  Z.of_nat (List.length (lines_of f2)) = c2 ->
  Sorted raw_le (lines_of f1) -> Sorted raw_le (lines_of f2) ->
  exists E w',
    ends_well (mergesort f1 f2 c1 c2 w) w' /\
    stdout w' = stdout w ++ map printed E /\ stderr w' = stderr w /\
    Permutation E (lines_of f1 ++ lines_of f2) /\ Sorted raw_le E.
Proof.
  intros _ _ Hc1 Hc2 Hn1 Hn2 Hs1 Hs2.
  destruct (mergesort_raw_order f1 f2 c1 c2 w Hc1 Hc2 (conj Hn1 Hn2))
    as (E & w' & H1 & H2 & H3 & H4 & H5).
  - now apply line_le_sorted.
  - now apply line_le_sorted.
  - exists E, w'. repeat split; try assumption.
    now apply StronglySorted_Sorted.
Qed.

Lemma X1_witness :
  exists E w',
    ends_well (mergesort (text ["A"; "B"]) (text [String "A" (String "009" "B")])
                         2 1 io0) w' /\
    stdout w' = stdout io0 ++ map printed E /\ stderr w' = stderr io0 /\
    Permutation E (lines_of (text ["A"; "B"])
                   ++ lines_of (text [String "A" (String "009" "B")])) /\
    Sorted raw_le E.
Proof.
  apply X1_merge_in_strcmp_order.
  - cbn. intuition discriminate.
  - cbn. intuition discriminate.
  - lia.
  - lia.
  - reflexivity.
  - reflexivity.
  - repeat constructor. vm_compute. discriminate.
  - repeat constructor.
Defined.



(** X3. A count of zero is fatal: when either count is 0 [mergesort]
    reads nothing and writes no line; its loop is skipped, nothing is held,
    and it exits with [EXIT_FAILURE] and the diagnostic of the [switch]
    after the loop. *)
Theorem X3_zero_count_is_fatal (f1 f2 : FILE) (c1 c2 : Z) (w : io) :
  c1 = 0 \/ c2 = 0 ->
  mergesort f1 f2 c1 c2 w
  = Exit EXIT_FAILURE
         (with_err w ("lock cannot be 0 or > 2" ++ String nl "")%string).
Proof.
  intro H. unfold mergesort.
  assert (Hb : (c1 =? 1) && (c2 =? 1) = false).
  { destruct H as [-> | ->]; [reflexivity|apply andb_false_r]. }
  rewrite Hb. now rewrite (bind_exit _ _ _ _ _ (merge_general_zero f1 f2 c1 c2 w H)).
Qed.

Lemma X3_witness :
  mergesort (text ["a"; "b"]) EmptyString 2 0 io0
  = Exit EXIT_FAILURE
         (with_err io0 ("lock cannot be 0 or > 2" ++ String nl "")%string).
Proof. apply X3_zero_count_is_fatal. now right. Defined.

(** X4. Input of at most ten lines is read into the first block: the
    number of lines counted is the number of lines of the input, a last
    line without terminator included, the cells hold the lines in their
    order, and the block is not grown. *)
Theorem X4_ingest_reads_lines (input : FILE) (w : io) :
  (List.length (lines_of input) <= 10)%nat ->
  exists block,
    ingest input w = Ret (Z.of_nat (List.length (lines_of input)), block) w /\
    firstn (List.length (lines_of input)) block = lines_of input /\
    List.length block = 10%nat.
Proof.
  intro H. unfold ingest.
  destruct (read_lines_spec (String.length input) input 0
                            (malloc_cells STEPSIZE) w)
    as [Hok _]; [lia|apply repeat_length|lia|].
  destruct (Hok H) as (block & Hr & Hl & Hf). exists block. auto.
Qed.

Lemma X4_witness :
  exists block,
    ingest (text ["b"; "a"] ++ "c")%string io0 = Ret (3, block) io0 /\
    firstn 3 block = [terminated "b"; terminated "a"; "c"] /\
    List.length block = 10%nat.
Proof.
  apply (X4_ingest_reads_lines (text ["b"; "a"] ++ "c")%string io0). simpl. lia.
Defined.

(** X5. Input of more than ten lines makes the loop that reads it store
    outside of the block, and so does [main] as a whole, before a line is
    written. *)
Theorem X5_more_than_ten_lines_overflow (fuel : nat) (input : FILE) (w : io) :
  (10 < List.length (lines_of input))%nat ->
  ingest input w = Undef /\ main (S fuel) input w = Undef.
Proof.
  intro H. pose proof (ingest_overflow input w H) as Hi.
  split; [exact Hi|]. cbn [main]. unfold bind. now rewrite Hi.
Qed.

Lemma X5_witness :
  main 1 (text ["1"; "2"; "3"; "4"; "5"; "6"; "7"; "8"; "9"; "10"; "11"; "12"])
       io0 = Undef.
Proof.
  apply (X5_more_than_ten_lines_overflow
           0 (text ["1"; "2"; "3"; "4"; "5"; "6"; "7"; "8"; "9"; "10"; "11"; "12"])
           io0).
  simpl. lia.
Defined.

(** X6. Input of one line without a NUL byte: [main] writes the line as
    it was read, with its terminator if it had one and without if it had
    none, starts no child and exits with [EXIT_SUCCESS]. *)
Theorem X6_single_line_as_read (fuel : nat) (input l : string) (w : io) :
  no_nul input -> lines_of input = [l] ->
  main (S fuel) input w = Exit EXIT_SUCCESS (with_out w l).
Proof. intros _. apply main_single_line. Qed.

Lemma X6_witness :
  main 1 (terminated "only") io0
  = Exit EXIT_SUCCESS (with_out io0 (terminated "only")).
Proof.
  apply (X6_single_line_as_read 0 (terminated "only"));
    [cbn; intuition discriminate|reflexivity].
Defined.

(** X7. Cutting a stream without a NUL byte into lines with [getline] and
    writing the lines one after the other with [fputs] gives back the
    stream, byte for byte; and the lines so written are read back as the
    same lines. *)
Theorem X7_lines_round_trip (f : FILE) :
  no_nul f ->
  feed (lines_of f) = f /\ lines_of (feed (lines_of f)) = lines_of f.
Proof.
  intros _.
  split; [apply feed_lines_of|]. apply lines_of_feed, line_seq_lines_of.
Qed.

Lemma X7_witness :
  feed (lines_of (text ["b"; ""; "a"] ++ "c")%string)
  = (text ["b"; ""; "a"] ++ "c")%string /\
  lines_of (feed (lines_of (text ["b"; ""; "a"] ++ "c")%string))
  = lines_of (text ["b"; ""; "a"] ++ "c")%string.
Proof.
  apply (X7_lines_round_trip (text ["b"; ""; "a"] ++ "c")%string).
  cbn. intuition discriminate.
Defined.

(** X8. Of an input of at most ten lines without a NUL byte the two
    children are handed, between them, exactly the bytes of the input, the
    first child's before the second's; and each count that [mergesort] is
    later called with is the number of lines its child is handed. *)
Theorem X8_children_get_the_input (input : FILE) (w : io) :
  no_nul input ->
  (List.length (lines_of input) <= 10)%nat ->
  exists numlines block,
    ingest input w = Ret (numlines, block) w /\
    let halves := split numlines block in
    (feed (fst (fst halves)) ++ feed (fst (snd halves)))%string = input /\
    snd (fst halves)
    = Z.of_nat (List.length (lines_of (feed (fst (fst halves))))) /\
    snd (snd halves)
    = Z.of_nat (List.length (lines_of (feed (fst (snd halves))))).
Proof.
  intros _ H. destruct (ingest_ok input w H) as (block & Hi & Hf).
  exists (Z.of_nat (List.length (lines_of input))), block.
  split; [exact Hi|]. cbv zeta.
  rewrite (split_lines _ block (lines_of input) Hf eq_refl). cbn [fst snd].
  pose proof (line_seq_lines_of input) as Hseq.
  set (k := (List.length (lines_of input) / 2)%nat).
  assert (Hk : (k <= List.length (lines_of input))%nat)
    by (apply Nat.Div0.div_le_upper_bound; lia).
  rewrite (lines_of_feed _ (line_seq_firstn k _ Hseq)).
  rewrite (lines_of_feed _ (line_seq_skipn k _ Hseq)).
  rewrite <- feed_app, firstn_skipn, feed_lines_of.
  rewrite length_firstn, length_skipn.
  repeat split; f_equal; lia.
Qed.

Lemma X8_witness :
  exists numlines block,
    ingest (text ["c"; "a"; "b"]) io0 = Ret (numlines, block) io0 /\
    let halves := split numlines block in
    (feed (fst (fst halves)) ++ feed (fst (snd halves)))%string
    = text ["c"; "a"; "b"] /\
    snd (fst halves)
    = Z.of_nat (List.length (lines_of (feed (fst (fst halves))))) /\
    snd (snd halves)
    = Z.of_nat (List.length (lines_of (feed (fst (snd halves))))).
Proof.
  apply (X8_children_get_the_input (text ["c"; "a"; "b"]) io0);
    [cbn; intuition discriminate|simpl; lia].
Defined.

(** X9. The program sorts.  On input of two to ten lines in which no
    byte is below the line feed (so none is NUL), and whose lines, each
    with a line feed, are no more bytes than a pipe holds, so that no child
    is blocked writing what it has sorted: given fuel for the depth of its
    tree of processes, [main] exits with [EXIT_SUCCESS], writes nothing to
    the error stream, and writes the lines of the input, each followed by
    one line feed, every line once, in non-decreasing order. *)
Theorem X9_program_sorts (fuel : nat) (input : FILE) (w : io) :
  low_free input ->
  (2 <= List.length (lines_of input) <= 10)%nat ->
  (List.length (lines_of input) <= fuel)%nat ->
  Z.of_nat (bytes_of (contents input)) <= PIPE_CAPACITY ->
  exists out,
    main fuel input w
    = Exit EXIT_SUCCESS (mkIO (stdout w ++ map terminated out) (stderr w)) /\
    Permutation out (contents input) /\ Sorted line_le out.
Proof.
  intros Hlow HN Hfuel Hcap.
  destruct (main_content_order fuel input w Hlow ltac:(lia) Hfuel Hcap)
    as (chunks & Hm & _ & _ & _ & Hp & Hs & Hc).
  exists (map content chunks).
  rewrite <- (terminated_printed chunks (Hc ltac:(lia))).
  split; [exact Hm|]. split; [exact Hp|]. now apply StronglySorted_Sorted.
Qed.

Lemma X9_witness :
  exists out,
    main 4 (text ["pear"; "fig"; "apple"] ++ "kiwi")%string io0
    = Exit EXIT_SUCCESS (mkIO (stdout io0 ++ map terminated out) (stderr io0)) /\
    Permutation out (contents (text ["pear"; "fig"; "apple"] ++ "kiwi")%string) /\
    Sorted line_le out.
Proof.
  apply X9_program_sorts.
  - cbn. unfold byte. cbn. lia.
  - simpl. lia.
  - simpl. lia.
  - vm_compute. discriminate.
Defined.

(** X10. Input that is in order comes out as it went in, terminators
    apart: on input of two to ten lines without bytes below the line feed,
    no more bytes with their line feeds than a pipe holds, whose lines are
    in non-decreasing order, [main] writes the lines of the input in the
    order of the input, each followed by one line feed. *)
Theorem X10_sorted_input_unchanged (fuel : nat) (input : FILE) (w : io) :
  low_free input ->
  (2 <= List.length (lines_of input) <= 10)%nat ->
  (List.length (lines_of input) <= fuel)%nat ->
  Z.of_nat (bytes_of (contents input)) <= PIPE_CAPACITY ->
  Sorted line_le (contents input) ->
  main fuel input w
  = Exit EXIT_SUCCESS
         (mkIO (stdout w ++ map terminated (contents input)) (stderr w)).
Proof.
  intros Hlow HN Hfuel Hcap Hsorted.
  destruct (main_content_order fuel input w Hlow ltac:(lia) Hfuel Hcap)
    as (chunks & Hm & _ & _ & _ & Hp & Hs & Hc).
  rewrite Hm, (terminated_printed chunks (Hc ltac:(lia))).
  rewrite (sorted_permutation_eq _ _ Hs (proj1 (line_le_sorted _) Hsorted) Hp).
  reflexivity.
Qed.

Lemma X10_witness :
  main 3 (text ["ant"; "bee"] ++ "cat")%string io0
  = Exit EXIT_SUCCESS
         (mkIO (stdout io0
                ++ map terminated (contents (text ["ant"; "bee"] ++ "cat")%string))
               (stderr io0)).
Proof.
  apply X10_sorted_input_unchanged.
  - cbn. unfold byte. cbn. lia.
  - simpl. lia.
  - simpl. lia.
  - vm_compute. discriminate.
  - repeat constructor; vm_compute; discriminate.
Defined.

(** X11. Sorting twice changes nothing: what [main] has written for an
    input of two to ten lines without bytes below the line feed, no more
    bytes with their line feeds than a pipe holds, handed to [main] as
    input, is written again as it is. *)
Theorem X11_sorting_twice (fuel : nat) (input : FILE) (w : io) :
  low_free input ->
  (2 <= List.length (lines_of input) <= 10)%nat ->
  (List.length (lines_of input) <= fuel)%nat ->
  Z.of_nat (bytes_of (contents input)) <= PIPE_CAPACITY ->
  exists chunks,
    main fuel input w
    = Exit EXIT_SUCCESS (mkIO (stdout w ++ chunks) (stderr w)) /\
    main fuel (feed chunks) w
    = Exit EXIT_SUCCESS (mkIO (stdout w ++ chunks) (stderr w)).
Proof.
  intros Hlow HN Hfuel Hcap.
  destruct (main_content_order fuel input w Hlow ltac:(lia) Hfuel Hcap)
    as (chunks & Hm & Hseq & Hab & Hlen & Hp & Hs & Hc).
  exists chunks. split; [exact Hm|].
  pose proof (lines_of_feed chunks Hseq) as Hl.
  destruct (main_sorts_lines content (fun l => above_nl (content l))
              cmp_content_lt cmp_content_ge above_printed
              (fun l _ => content_printed l) fuel (feed chunks) w)
    as (chunks2 & Hm2 & _ & _ & _ & Hp2 & Hs2 & Hc2 & _);
    [now rewrite Hl|rewrite Hl; lia|rewrite Hl; lia
    |unfold contents; rewrite Hl, (bytes_of_perm _ _ Hp); exact Hcap|].
  rewrite Hl in Hp2, Hc2. rewrite Hm2.
  rewrite (terminated_printed chunks2 (Hc2 ltac:(lia))).
  rewrite (sorted_permutation_eq _ _ Hs2 Hs Hp2).
  now rewrite <- (terminated_printed chunks (Hc ltac:(lia))).
Qed.

Lemma X11_witness :
  exists chunks,
    main 3 (text ["b"; "c"; "a"]) io0
    = Exit EXIT_SUCCESS (mkIO (stdout io0 ++ chunks) (stderr io0)) /\
    main 3 (feed chunks) io0
    = Exit EXIT_SUCCESS (mkIO (stdout io0 ++ chunks) (stderr io0)).
Proof.
  apply X11_sorting_twice.
  - cbn. unfold byte. cbn. lia.
  - simpl. lia.
  - simpl. lia.
  - vm_compute. discriminate.
Defined.

(** X12. What the program sorts by, whatever the bytes but NUL: on input
    without a NUL byte of two to ten lines that all have their terminator
    and are no more bytes than a pipe holds, [main] exits with
    [EXIT_SUCCESS] and writes the lines of the input as they are, every
    line once, in non-decreasing order of [strcmp] on the lines with their
    terminators. *)
Theorem X12_program_sorts_by_strcmp (fuel : nat) (input : FILE) (w : io) :
  no_nul input ->
  Forall terminated_line (lines_of input) ->
  (2 <= List.length (lines_of input) <= 10)%nat ->
  (List.length (lines_of input) <= fuel)%nat ->
  Z.of_nat (bytes_of (contents input)) <= PIPE_CAPACITY ->
  exists out,
    main fuel input w
    = Exit EXIT_SUCCESS (mkIO (stdout w ++ out) (stderr w)) /\
    Permutation out (lines_of input) /\ Sorted raw_le out.
Proof.
  intros _ HP HN Hfuel Hcap.
  destruct (main_raw_order fuel input w HP ltac:(lia) Hfuel Hcap)
    as (chunks & Hm & Hp & Hs).
  exists chunks. split; [exact Hm|]. split; [exact Hp|].
  now apply StronglySorted_Sorted.
Qed.

Lemma X12_witness :
  exists out,
    main 2 (text ["A"; String "A" (String "009" "B")]) io0
    = Exit EXIT_SUCCESS (mkIO (stdout io0 ++ out) (stderr io0)) /\
    Permutation out (lines_of (text ["A"; String "A" (String "009" "B")])) /\
    Sorted raw_le out.
Proof.
  apply X12_program_sorts_by_strcmp.
  - cbn. intuition discriminate.
  - repeat constructor.
    + exists "A". split; [cbn; intuition discriminate|reflexivity].
    + exists (String "A" (String "009" "B")).
      split; [cbn; intuition discriminate|reflexivity].
  - simpl. lia.
  - simpl. lia.
  - vm_compute. discriminate.
Defined.
